(** * relabs-tech/devices: magnetometer drivers

    A shallow embedding of the two sources of the repository:

    - [hmc5983/hmc5983.go], the direct-I2C HMC5983 driver ([New],
      [SenseRaw], [Sense], [CountsToMicroTesla10]);
    - [mpu9250/MAG_README.md], the AK8963 bring-up document, with the
      configuration validators ([validateMagConfig],
      [validateRegisterDebugMagConfig], [validateMagParams]) and the fixed
      initialization sequence.

    Go machine integers are integers of [Z] with the wrap-around written
    out; [float64] is the kernel's binary64 ([PrimFloat]), which has the
    IEEE 754 round-to-nearest-even arithmetic of Go's [float64]. *)

From Stdlib Require Import ZArith List Bool Lia String QArith Floats Uint63.
Import ListNotations.
Local Open Scope Z_scope.

(** ** Go numerics *)

Module GoNum.

(** Two's complement wrap-around to a signed [bits]-bit integer. *)
Definition wrap (bits : Z) (z : Z) : Z :=
  (z + 2 ^ (bits - 1)) mod 2 ^ bits - 2 ^ (bits - 1).

(** The conversion [int16(z)] and the range of the type. *)
Definition int16 (z : Z) : Z := wrap 16 z.

Definition in_int16 (z : Z) : Prop := -32768 <= z <= 32767.

(** The conversion [byte(z)] and the range of the type. *)
Definition byte (z : Z) : Z := z mod 256.

Definition is_byte (z : Z) : Prop := 0 <= z <= 255.

(** [x << n] and [x | y] at type [int16]. *)
Definition shl16 (x n : Z) : Z := int16 (Z.shiftl x n).

Definition or16 (x y : Z) : Z := int16 (Z.lor x y).

(** [x << n] and [x | y] at type [byte]. *)
Definition shl8 (x n : Z) : Z := byte (Z.shiftl x n).

Definition or8 (x y : Z) : Z := byte (Z.lor x y).

(** [time.Duration] counts nanoseconds. *)
Definition Millisecond : Z := 1000000.

(** [float64(z)] for a Go integer [z]: exact below [2^53] in magnitude,
    rounded to nearest above.  The driver divides and multiplies; neither
    can be fused with the other, so each operation rounds once, as the
    primitive operations do. *)
Definition float64_of_int (z : Z) : float :=
  match z with
  | Zneg p => PrimFloat.opp (PrimFloat.of_uint63 (Uint63.of_Z (Zpos p)))
  | _ => PrimFloat.of_uint63 (Uint63.of_Z z)
  end.

(** The integer part of a finite [float64], the fraction discarded
    (truncation toward zero); [None] for an infinity or a NaN. *)
Definition trunc_float64 (f : float) : option Z :=
  match Prim2SF f with
  | S754_zero _ => Some 0
  | S754_finite s m e =>
      let mag := match e with
                 | Zneg k => Z.shiftr (Zpos m) (Zpos k)
                 | _ => Z.shiftl (Zpos m) e
                 end in
      Some (if s then - mag else mag)
  | _ => None
  end.

(** [int16(f)] for a [float64] [f].  Go defines the result when the
    truncated value fits the type.  When it does not, the language leaves
    the result to the implementation; the model keeps the low 16 bits of the
    truncated value, as the gc compiler does on amd64 for values that fit 32
    bits.  The properties of the scaling are stated for truncated values
    that fit [int16], where the choice plays no part. *)
Definition int16_of_float64 (f : float) : Z :=
  match trunc_float64 f with
  | Some t => int16 t
  | None => 0
  end.

(** The exact rational value of a finite [float64]. *)
Definition Q_of_float64 (f : float) : option Q :=
  match Prim2SF f with
  | S754_zero _ => Some (0 # 1)%Q
  | S754_finite s m e =>
      let n := if s then Zneg m else Zpos m in
      Some (match e with
            | Zneg k => (n # Pos.pow 2 k)%Q
            | _ => (n * 2 ^ e # 1)%Q
            end)
  | _ => None
  end.

End GoNum.

Import GoNum.

(** ** hmc5983/hmc5983.go *)

Module HMC5983.

(** I2C register map for HMC5983/HMC5883L. *)
Definition regCRA : Z := 0x00.
Definition regCRB : Z := 0x01.
Definition regMODE : Z := 0x02.
Definition regDATA : Z := 0x03.
Definition regSTATUS : Z := 0x09.
Definition regIDA : Z := 0x0A.
Definition regIDB : Z := 0x0B.
Definition regIDC : Z := 0x0C.

Definition DefaultAddr : Z := 0x1E.

Record Opts : Type := mkOpts {
  ODRHz : Z;
  AvgSamples : Z;
  GainCode : Z;
  Mode : string;
  Addr : Z
}.

(** [Dev]: the I2C address of [i2c.Dev] and the two scale factors.  The bus
    itself is the [Tx] of the section below. *)
Record Dev : Type := mkDev {
  dev_addr : Z;
  lsbPerGaXY : Z;
  lsbPerGaZ : Z
}.

(** The two tables of [New]: LSB per Gauss, by gain code. *)
Definition gainXY : list Z := [1370; 1090; 820; 660; 440; 390; 330; 230].
Definition gainZ : list Z := [1330; 980; 660; 600; 400; 355; 295; 205].

(** [CountsToMicroTesla10]: counts -> Gauss -> micro-tesla x 10. *)
Definition CountsToMicroTesla10 (counts lsbPerGauss : Z) : Z :=
  let g := PrimFloat.div (float64_of_int counts) (float64_of_int lsbPerGauss) in
  int16_of_float64 (PrimFloat.mul g 1000%float).

(** The [float64] product [g * 1000.0] of [CountsToMicroTesla10] and of
    [Sense], before the conversion to [int16]. *)
Definition scaled_float64 (counts lsbPerGauss : Z) : float :=
  PrimFloat.mul
    (PrimFloat.div (float64_of_int counts) (float64_of_int lsbPerGauss))
    1000%float.

Section Driver.

(** The I2C bus of [periph.io]: [Tx addr w n] sends [w] to the device at
    [addr] and, when [n > 0], reads [n] bytes back.  The bus has a state of
    its own, and a transaction may fail. *)
Variable BusSt : Type.
Variable BusErr : Type.
Variable Tx : Z -> list Z -> nat -> BusSt -> BusSt * (BusErr + list Z).

Inductive error : Type :=
| TxError (e : BusErr)
| EmptyBuffer.

(** What the driver acts on: the bus, and the time it slept. *)
Record World : Type := mkWorld {
  bus : BusSt;
  slept : list Z
}.

(** State and error monad of the driver's methods. *)
Definition M (A : Type) : Type := World -> World * (error + A).

Definition ret {A} (a : A) : M A := fun w => (w, inr a).

Definition fail {A} (e : error) : M A := fun w => (w, inl e).

Definition bind {A B} (m : M A) (k : A -> M B) : M B :=
  fun w =>
    match m w with
    | (w', inl e) => (w', inl e)
    | (w', inr a) => k a w'
    end.

Notation "x <- m ;; k" := (bind m (fun x => k))
  (at level 61, m at next level, right associativity).
Notation "m ;;; k" := (bind m (fun _ => k))
  (at level 61, right associativity).

Definition sleep (d : Z) : M unit :=
  fun w => ({| bus := bus w; slept := slept w ++ [d] |}, inr tt).

(** The buffer [out] of length [n] after a read: what the bus delivered,
    over the zeroes of [make([]byte, n)]. *)
Definition fill (n : nat) (rd : list Z) : list Z :=
  firstn n (rd ++ repeat 0 n).

(** [d.dev.Tx(w, out)] with [len(out) = n]. *)
Definition devTx (d : Dev) (w : list Z) (n : nat) : M (list Z) :=
  fun wd =>
    match Tx (dev_addr d) w n (bus wd) with
    | (b', inl e) => ({| bus := b'; slept := slept wd |}, inl (TxError e))
    | (b', inr rd) => ({| bus := b'; slept := slept wd |}, inr (fill n rd))
    end.

Definition writeReg (d : Dev) (addr val : Z) : M unit :=
  devTx d [addr; val] 0 ;;; ret tt.

Definition readRegBlock (d : Dev) (addr : Z) (n : nat) : M (list Z) :=
  if Nat.eqb n 0 then fail EmptyBuffer
  else devTx d [addr] n.

(** [New]: the gain code selects the scale factors, three registers are
    written, and the driver sleeps 10 ms. *)
Definition New (opts : Opts) : M Dev :=
  let addr := if Addr opts =? 0 then DefaultAddr else Addr opts in
  let gc := if (GainCode opts <? 0) || (GainCode opts >? 7)
            then 1 else GainCode opts in
  let d := {| dev_addr := addr;
              lsbPerGaXY := nth (Z.to_nat gc) gainXY 0;
              lsbPerGaZ := nth (Z.to_nat gc) gainZ 0 |} in
  let cra := 0 in
  let cra := match AvgSamples opts with
             | 8 => or8 cra (Z.shiftl 3 5)
             | 4 => or8 cra (Z.shiftl 2 5)
             | 2 => or8 cra (Z.shiftl 1 5)
             | _ => or8 cra (Z.shiftl 0 5)
             end in
  let cra := match ODRHz opts with
             | 75 => or8 cra (Z.shiftl 6 2)
             | 30 => or8 cra (Z.shiftl 4 2)
             | 15 => or8 cra (Z.shiftl 3 2)
             | 7 => or8 cra (Z.shiftl 2 2)
             | 3 => or8 cra (Z.shiftl 1 2)
             | _ => or8 cra (Z.shiftl 3 2)
             end in
  writeReg d regCRA cra ;;;
  let crb := shl8 (byte gc) 5 in
  writeReg d regCRB crb ;;;
  let mode := if String.eqb (Mode opts) "single" then 0x01 else 0x00 in
  writeReg d regMODE mode ;;;
  sleep (10 * Millisecond) ;;;
  ret d.

(** [data[i]] of a buffer. *)
Definition at_index (data : list Z) (i : nat) : Z := nth i data 0.

(** [SenseRaw]: the device sends X, Z, Y; the result is X, Y, Z. *)
Definition SenseRaw (d : Dev) : M (Z * Z * Z) :=
  data <- readRegBlock d regDATA 6 ;;
  let x := or16 (shl16 (int16 (at_index data 0)) 8) (int16 (at_index data 1)) in
  let z := or16 (shl16 (int16 (at_index data 2)) 8) (int16 (at_index data 3)) in
  let y := or16 (shl16 (int16 (at_index data 4)) 8) (int16 (at_index data 5)) in
  ret (x, y, z).

(** [Sense]: raw counts scaled to micro-tesla x 10. *)
Definition Sense (d : Dev) : M (Z * Z * Z) :=
  r <- SenseRaw d ;;
  let '(rx, ry, rz) := r in
  let gx := PrimFloat.div (float64_of_int rx) (float64_of_int (lsbPerGaXY d)) in
  let gy := PrimFloat.div (float64_of_int ry) (float64_of_int (lsbPerGaXY d)) in
  let gz := PrimFloat.div (float64_of_int rz) (float64_of_int (lsbPerGaZ d)) in
  let ux := int16_of_float64 (PrimFloat.mul gx 1000%float) in
  let uy := int16_of_float64 (PrimFloat.mul gy 1000%float) in
  let uz := int16_of_float64 (PrimFloat.mul gz 1000%float) in
  ret (ux, uy, uz).

(** [Status] reads the status register. *)
Definition Status (d : Dev) : M Z :=
  b <- readRegBlock d regSTATUS 1 ;;
  ret (at_index b 0).

(** [ID] returns the three identity bytes. *)
Definition ID (d : Dev) : M (Z * Z * Z) :=
  buf <- readRegBlock d regIDA 3 ;;
  ret (at_index buf 0, at_index buf 1, at_index buf 2).

End Driver.

Arguments TxError {BusErr} e.
Arguments EmptyBuffer {BusErr}.
Arguments mkWorld {BusSt} bus slept.
Arguments bus {BusSt} w.
Arguments slept {BusSt} w.
Arguments devTx {BusSt BusErr} Tx d w n.
Arguments writeReg {BusSt BusErr} Tx d addr val.
Arguments readRegBlock {BusSt BusErr} Tx d addr n.
Arguments New {BusSt BusErr} Tx opts.
Arguments SenseRaw {BusSt BusErr} Tx d.
Arguments Sense {BusSt BusErr} Tx d.
Arguments Status {BusSt BusErr} Tx d.
Arguments ID {BusSt BusErr} Tx d.

End HMC5983.

(** ** mpu9250/MAG_README.md: configuration *)

Module MPU9250.

(** The magnetometer fields of [Config] (section 3.3).  [MagScale],
    [MagMode] and [MagSampleRateDivider] are bytes; the other numbers are
    Go [int]s. *)
Record Config : Type := mkConfig {
  MagWriteDelayMS : Z;
  MagReadDelayMS : Z;
  MagScale : Z;
  MagMode : Z;
  MagSampleRateDivider : Z;
  RegisterDebugMagWriteDelay : Z;
  RegisterDebugMagReadDelay : Z;
  RegisterDebugMagUnsafeMode : bool
}.

(** A [Config] as the Go type admits it: the byte fields hold bytes. *)
Definition wf_config (cfg : Config) : Prop :=
  is_byte (MagScale cfg) /\ is_byte (MagMode cfg) /\
  is_byte (MagSampleRateDivider cfg).

(** The errors of the validators, one per [fmt.Errorf], with the number the
    message prints. *)
Inductive ConfigError : Type :=
| ErrWriteDelayRange (got : Z)
| ErrReadDelayRange (got : Z)
| ErrScale (got : Z)
| ErrMode (got : Z)
| ErrSampleRateDivider (got : Z)
| ErrDebugWriteDelayRange (got : Z)
| ErrDebugWriteDelayUnsafe
| ErrDebugReadDelayRange (got : Z)
| ErrParamWriteDelay (got : Z)
| ErrParamReadDelay (got : Z)
| ErrParamScale (got : Z)
| ErrParamMode (got : Z).

(** The lines the validators log. *)
Inductive LogLine : Type :=
| WarnWriteDelayBelowRecommended (ms : Z)
| WarnUnsafeModeSet
| WarnUnsafeOperationsEnabled
| WarnNotForProduction.

(** A Go map literal, as the list of its entries. *)
Fixpoint lookup {V : Type} (m : list (Z * V)) (k : Z) : option V :=
  match m with
  | [] => None
  | (k', v) :: rest => if k' =? k then Some v else lookup rest k
  end.

(** The table [validModes] of [validateMagConfig]. *)
Definition validModes : list (Z * string) :=
  [ (0x00, "Power-down"%string);
    (0x01, "Single measurement"%string);
    (0x02, "Continuous 8Hz"%string);
    (0x06, "Continuous 100Hz"%string);
    (0x04, "External trigger"%string);
    (0x08, "Self-test"%string);
    (0x0F, "Fuse ROM access"%string) ].

(** [validateMagConfig] (section 6.1): the lines logged and the error, [None]
    for [nil]. *)
Definition validateMagConfig (cfg : Config) : list LogLine * option ConfigError :=
  if (MagWriteDelayMS cfg <? 1) || (MagWriteDelayMS cfg >? 200) then
    ([], Some (ErrWriteDelayRange (MagWriteDelayMS cfg)))
  else
    let log := if MagWriteDelayMS cfg <? 50
               then [WarnWriteDelayBelowRecommended (MagWriteDelayMS cfg)]
               else [] in
    if (MagReadDelayMS cfg <? 1) || (MagReadDelayMS cfg >? 50) then
      (log, Some (ErrReadDelayRange (MagReadDelayMS cfg)))
    else if MagScale cfg >? 1 then
      (log, Some (ErrScale (MagScale cfg)))
    else
      match lookup validModes (MagMode cfg) with
      | None => (log, Some (ErrMode (MagMode cfg)))
      | Some _ =>
          if MagSampleRateDivider cfg >? 15 then
            (log, Some (ErrSampleRateDivider (MagSampleRateDivider cfg)))
          else (log, None)
      end.

(** [validateRegisterDebugMagConfig] (section 6.2). *)
Definition validateRegisterDebugMagConfig (cfg : Config)
  : list LogLine * option ConfigError :=
  let log := if RegisterDebugMagUnsafeMode cfg
             then [WarnUnsafeModeSet; WarnUnsafeOperationsEnabled;
                   WarnNotForProduction]
             else [] in
  let write_check :=
    if RegisterDebugMagWriteDelay cfg >? 0 then
      if (RegisterDebugMagWriteDelay cfg <? 1) ||
         (RegisterDebugMagWriteDelay cfg >? 500) then
        Some (ErrDebugWriteDelayRange (RegisterDebugMagWriteDelay cfg))
      else if (RegisterDebugMagWriteDelay cfg <? 50) &&
              negb (RegisterDebugMagUnsafeMode cfg) then
        Some ErrDebugWriteDelayUnsafe
      else None
    else None in
  match write_check with
  | Some e => (log, Some e)
  | None =>
      if RegisterDebugMagReadDelay cfg >? 0 then
        if (RegisterDebugMagReadDelay cfg <? 1) ||
           (RegisterDebugMagReadDelay cfg >? 100) then
          (log, Some (ErrDebugReadDelayRange (RegisterDebugMagReadDelay cfg)))
        else (log, None)
      else (log, None)
  end.

(** The table [validModes] of [validateMagParams]. *)
Definition validModesParam : list (Z * bool) :=
  [ (0x00, true); (0x01, true); (0x02, true);
    (0x04, true); (0x06, true); (0x08, true); (0x0F, true) ].

(** [validateMagParams] (section 6.3); the delays are [time.Duration]s. *)
Definition validateMagParams (writeDelay readDelay scale mode : Z)
  : option ConfigError :=
  if writeDelay <? Millisecond then Some (ErrParamWriteDelay writeDelay)
  else if readDelay <? Millisecond then Some (ErrParamReadDelay readDelay)
  else if scale >? 1 then Some (ErrParamScale scale)
  else
    match lookup validModesParam mode with
    | Some true => None
    | _ => Some (ErrParamMode mode)
    end.

(** An override is set when it is positive: the test of both
    [validateRegisterDebugMagConfig] and the register debug tool (section
    4.4); [-1] in the configuration file means "use the standard value". *)
Definition override_set (v : Z) : Prop := 0 < v.

Definition override_setb (v : Z) : bool := v >? 0.

(** [EffectiveParameters] of the specification, delays as
    [time.Duration]. *)
Record EffectiveParameters : Type := mkParams {
  writeDelay : Z;
  readDelay : Z;
  scale : Z;
  mode : Z;
  sampleRateDivider : Z
}.

(** Modelled from the spec: the Configuration Resolver.  The source has the
    two validators and, in the register debug tool (section 4.4), the
    selection of an override when it is positive; the function that calls
    them in turn is not in the source.  Following section 4.1 of the
    specification, the standard set is validated, then the override, and a
    valid override replaces the standard delay. *)
Definition resolve (cfg : Config)
  : list LogLine * (ConfigError + EffectiveParameters) :=
  match validateMagConfig cfg with
  | (log1, Some e) => (log1, inl e)
  | (log1, None) =>
      match validateRegisterDebugMagConfig cfg with
      | (log2, Some e) => (log1 ++ log2, inl e)
      | (log2, None) =>
          let wd := if override_setb (RegisterDebugMagWriteDelay cfg)
                    then RegisterDebugMagWriteDelay cfg
                    else MagWriteDelayMS cfg in
          let rd := if override_setb (RegisterDebugMagReadDelay cfg)
                    then RegisterDebugMagReadDelay cfg
                    else MagReadDelayMS cfg in
          (log1 ++ log2,
           inr {| writeDelay := wd * Millisecond;
                  readDelay := rd * Millisecond;
                  scale := MagScale cfg;
                  mode := MagMode cfg;
                  sampleRateDivider := MagSampleRateDivider cfg |})
      end
  end.

Definition is_config_error {A} (r : list LogLine * (ConfigError + A)) : Prop :=
  match snd r with inl _ => True | inr _ => False end.

End MPU9250.

(** ** The initialization sequence *)

Module Sequencer.

Import MPU9250.

(** Modelled from the spec: the registers a step addresses.  [InitMag] and
    the register map of [mpu9250.go] are not in the source; the
    specification names the device's control register, its secondary
    control register, the factory trim region, and the host's relay
    mechanism. *)
Inductive Reg : Type :=
| MagCNTL
| MagCNTL2
| MagASA
| HostRelay.

(** The values of the fixed sequence (MAG_README.md, sections 5.2 and 9.3):
    [CNTL2=0x01], [CNTL=0x00], [CNTL=0x0F]. *)
Definition cmdReset : Z := 0x01.
Definition modePowerDown : Z := 0x00.
Definition modeFuseROM : Z := 0x0F.

(** Modelled from the spec: the seven steps of section 4.2 of the
    specification (the fixed sequence of MAG_README.md, section 9.3), and
    the states of the machine, [Idle] to [Ready] or [Failed]. *)
Inductive Step : Type :=
| Reset
| PowerDown1
| FuseMode
| ReadCalibration
| PowerDown2
| SetMode
| ConfigureContinuousRead.

Inductive State : Type :=
| Idle
| Running (s : Step)
| Ready
| Failed.

Inductive WaitKind : Type :=
| WriteSettle
| ReadSettle.

(** What a step does, as a mock transport and a mock clock observe it. *)
Inductive Action : Type :=
| WriteReg (r : Reg) (v : Z)
| ReadBlock (r : Reg) (n : nat)
| Wait (k : WaitKind) (d : Z).

Definition Event : Type := Step * Action.

(** Modelled from the spec: the factory sensitivity adjustment of a trim
    byte, [(trimByte - 128) / 256 + 1] (section 3), computed in [float64]
    as [InitMag] (not in the source) would. *)
Definition adjustment (trimByte : Z) : float :=
  ((float64_of_int trimByte - 128) / 256 + 1)%float.

(** The same formula over the rationals. *)
Definition adjustmentQ (trimByte : Z) : Q :=
  ((inject_Z trimByte - 128) / 256 + 1)%Q.

Record CalibrationValues : Type := mkCal {
  adjX : float;
  adjY : float;
  adjZ : float
}.

(** Modelled from the spec: the byte [SetMode] writes,
    [(scale << 4) | mode] (the [Mscale << 4 | Mmode] of MAG_README.md,
    section 5.2), at type byte. *)
Definition cntlValue (scale mode : Z) : Z := or8 (shl8 scale 4) mode.

(** Modelled from the spec: the step after a step, [Ready] after the
    last. *)
Definition next (s : Step) : State :=
  match s with
  | Reset => Running PowerDown1
  | PowerDown1 => Running FuseMode
  | FuseMode => Running ReadCalibration
  | ReadCalibration => Running PowerDown2
  | PowerDown2 => Running SetMode
  | SetMode => Running ConfigureContinuousRead
  | ConfigureContinuousRead => Ready
  end.

(** Modelled from the spec: what a writing step writes.  The relay set-up
    of the last step is one write of the sample rate divider to the host's
    relay mechanism; the specification gives no finer detail. *)
Definition writeOf (p : EffectiveParameters) (s : Step) : Reg * Z :=
  match s with
  | Reset => (MagCNTL2, cmdReset)
  | PowerDown1 => (MagCNTL, modePowerDown)
  | FuseMode => (MagCNTL, modeFuseROM)
  | ReadCalibration => (MagASA, 0)
  | PowerDown2 => (MagCNTL, modePowerDown)
  | SetMode => (MagCNTL, cntlValue (scale p) (mode p))
  | ConfigureContinuousRead => (HostRelay, sampleRateDivider p)
  end.

Section Machine.

(** The transport capability of section 6 of the specification: a blocking
    [write] and [readBlock], each of which may fail; the transport (a mock
    in tests) has a state of its own. *)
Variable TS : Type.
Variable TransportError : Type.
Variable write : Reg -> Z -> TS -> TS * option TransportError.
Variable readBlock : Reg -> nat -> TS -> TS * (TransportError + list Z).

Record InitError : Type := mkInitError {
  step : Step;
  cause : TransportError
}.

Record Machine : Type := mkMachine {
  state : State;
  transport : TS;
  trace : list Event;
  trim : list Z;
  failure : option InitError
}.

Definition start (ts : TS) : Machine :=
  {| state := Idle; transport := ts; trace := []; trim := [];
     failure := None |}.

(** Modelled from the spec: one transition of the Initialization Sequencer
    (section 4.2; [InitMag] is not in the source).  A writing step writes
    once and waits [writeDelay]; [ReadCalibration] relay-reads the three
    trim bytes and waits [readDelay]; a transport failure moves to [Failed]
    at once, tagged with the step, without the wait. *)
Definition advance (p : EffectiveParameters) (m : Machine) : Machine :=
  match state m with
  | Idle =>
      {| state := Running Reset; transport := transport m;
         trace := trace m; trim := trim m; failure := failure m |}
  | Running ReadCalibration =>
      match readBlock MagASA 3 (transport m) with
      | (ts, inl e) =>
          {| state := Failed; transport := ts;
             trace := trace m ++ [(ReadCalibration, ReadBlock MagASA 3)];
             trim := trim m;
             failure := Some {| step := ReadCalibration; cause := e |} |}
      | (ts, inr bytes) =>
          {| state := next ReadCalibration; transport := ts;
             trace := trace m ++ [(ReadCalibration, ReadBlock MagASA 3);
                                  (ReadCalibration, Wait ReadSettle (readDelay p))];
             trim := bytes;
             failure := failure m |}
      end
  | Running s =>
      let '(r, v) := writeOf p s in
      match write r v (transport m) with
      | (ts, Some e) =>
          {| state := Failed; transport := ts;
             trace := trace m ++ [(s, WriteReg r v)];
             trim := trim m;
             failure := Some {| step := s; cause := e |} |}
      | (ts, None) =>
          {| state := next s; transport := ts;
             trace := trace m ++ [(s, WriteReg r v);
                                  (s, Wait WriteSettle (writeDelay p))];
             trim := trim m;
             failure := failure m |}
      end
  | Ready => m
  | Failed => m
  end.

(** [n] transitions. *)
Fixpoint run (n : nat) (p : EffectiveParameters) (m : Machine) : Machine :=
  match n with
  | O => m
  | S k => run k p (advance p m)
  end.

(** The states a run of [n] transitions goes through, the first included. *)
Fixpoint visited (n : nat) (p : EffectiveParameters) (m : Machine) : list State :=
  match n with
  | O => [state m]
  | S k => state m :: visited k p (advance p m)
  end.

(** A full run: from [Idle], eight transitions reach [Ready] or [Failed]. *)
Definition fullRun (p : EffectiveParameters) (ts : TS) : Machine :=
  run 8 p (start ts).

(** Modelled from the spec: the calibration values of the three trim bytes
    read at step 4. *)
Definition calibrationOf (trimBytes : list Z) : CalibrationValues :=
  {| adjX := adjustment (nth 0 trimBytes 0);
     adjY := adjustment (nth 1 trimBytes 0);
     adjZ := adjustment (nth 2 trimBytes 0) |}.

(** Modelled from the spec: [initialize(params)] of section 6, the result of
    a full run. *)
Definition initialize (p : EffectiveParameters) (ts : TS)
  : Machine * option (InitError + CalibrationValues) :=
  let m := fullRun p ts in
  (m, match state m with
      | Ready => Some (inr (calibrationOf (trim m)))
      | Failed => match failure m with
                  | Some e => Some (inl e)
                  | None => None
                  end
      | _ => None
      end).

(** Modelled from the spec: the data flow of section 2, configuration to
    Resolver to Sequencer.  The result is what was logged, the transport
    after the run with the trace of the run, and either the error of the
    Resolver or the result of [initialize].  The transport is touched only
    once the configuration is resolved. *)
Definition bringUp (cfg : Config) (ts : TS)
  : list LogLine * (TS * list Event) *
    (ConfigError + option (InitError + CalibrationValues)) :=
  match resolve cfg with
  | (log, inl e) => (log, (ts, []), inl e)
  | (log, inr p) =>
      let '(m, r) := initialize p ts in
      (log, (transport m, trace m), inr r)
  end.

(** The settle waits of a trace. *)
Definition waitsOf (tr : list Event) : list (Step * WaitKind * Z) :=
  flat_map (fun ev => match ev with
                      | (s, Wait k d) => [(s, k, d)]
                      | _ => []
                      end) tr.

Definition countWaits (k : WaitKind) (tr : list Event) : nat :=
  List.length (filter (fun w => match snd (fst w), k with
                           | WriteSettle, WriteSettle => true
                           | ReadSettle, ReadSettle => true
                           | _, _ => false
                           end) (waitsOf tr)).

(** The actions of one step in a trace. *)
Definition stepEq (a b : Step) : bool :=
  match a, b with
  | Reset, Reset | PowerDown1, PowerDown1 | FuseMode, FuseMode
  | ReadCalibration, ReadCalibration | PowerDown2, PowerDown2
  | SetMode, SetMode | ConfigureContinuousRead, ConfigureContinuousRead => true
  | _, _ => false
  end.

Definition actionsOf (s : Step) (tr : list Event) : list Action :=
  map snd (filter (fun ev => stepEq (fst ev) s) tr).

End Machine.

Arguments mkInitError {TransportError} step cause.
Arguments step {TransportError} i.
Arguments cause {TransportError} i.
Arguments mkMachine {TS TransportError} state transport trace trim failure.
Arguments state {TS TransportError} m.
Arguments transport {TS TransportError} m.
Arguments trace {TS TransportError} m.
Arguments trim {TS TransportError} m.
Arguments failure {TS TransportError} m.
Arguments start {TS TransportError} ts.
Arguments advance {TS TransportError} write readBlock p m.
Arguments run {TS TransportError} write readBlock n p m.
Arguments visited {TS TransportError} write readBlock n p m.
Arguments fullRun {TS TransportError} write readBlock p ts.
Arguments initialize {TS TransportError} write readBlock p ts.
Arguments bringUp {TS TransportError} write readBlock cfg ts.

(** Modelled from the spec: the Scaling Engine of section 4.4,
    [scaledAxis = rawAxis x calibrationAxis x gainConstant(scale, axis)],
    over the rationals; the gain constants of the AK8963 are not in the
    source and stay a parameter. *)
Definition scaledAxis (rawAxis : Z) (calibrationAxis gainConstant : Q) : Q :=
  (inject_Z rawAxis * calibrationAxis * gainConstant)%Q.

End Sequencer.

(** ** Vocabulary of the properties *)

Import HMC5983 MPU9250 Sequencer.

(** The signed 16-bit value of two bytes, most significant first. *)
Definition int16_be (hi lo : Z) : Z :=
  let u := 256 * hi + lo in
  if u <? 32768 then u else u - 65536.

(** [opts] with another gain code. *)
Definition withGainCode (g : Z) (opts : Opts) : Opts :=
  {| ODRHz := ODRHz opts; AvgSamples := AvgSamples opts; GainCode := g;
     Mode := Mode opts; Addr := Addr opts |}.

(** The gain code [New] works with. *)
Definition effectiveGainCode (opts : Opts) : Z :=
  if (GainCode opts <? 0) || (GainCode opts >? 7) then 1 else GainCode opts.

(** A gain constant of either table of [New]. *)
Definition gain_constant (l : Z) : Prop := In l gainXY \/ In l gainZ.

(** A value brought into the range of [int16] by saturation. *)
Definition clamp16 (z : Z) : Z := Z.max (-32768) (Z.min 32767 z).

(** The valid scales and modes of the validators. *)
Definition valid_scale (s : Z) : Prop := s = 0 \/ s = 1.

Definition valid_mode (m : Z) : Prop :=
  In m [0x00; 0x01; 0x02; 0x04; 0x06; 0x08; 0x0F].

(** What makes [validateMagConfig] return an error. *)
Definition standardSetInvalid (cfg : Config) : Prop :=
  (MagWriteDelayMS cfg < 1 \/ 200 < MagWriteDelayMS cfg) \/
  (MagReadDelayMS cfg < 1 \/ 50 < MagReadDelayMS cfg) \/
  ~ valid_scale (MagScale cfg) \/
  ~ valid_mode (MagMode cfg) \/
  15 < MagSampleRateDivider cfg.

(** The fixed order of section 4.2 and the settle waits of a full run. *)
Definition fixedOrder : list Step :=
  [Reset; PowerDown1; FuseMode; ReadCalibration; PowerDown2; SetMode;
   ConfigureContinuousRead].

Definition expectedWaits (p : EffectiveParameters) : list (Step * WaitKind * Z) :=
  [ (Reset, WriteSettle, writeDelay p);
    (PowerDown1, WriteSettle, writeDelay p);
    (FuseMode, WriteSettle, writeDelay p);
    (ReadCalibration, ReadSettle, readDelay p);
    (PowerDown2, WriteSettle, writeDelay p);
    (SetMode, WriteSettle, writeDelay p);
    (ConfigureContinuousRead, WriteSettle, writeDelay p) ].

(** The trace of a full run that succeeds: every transport call and every
    settle wait, tagged with its step. *)
Definition expectedTrace (p : EffectiveParameters) : list Event :=
  [ (Reset, WriteReg MagCNTL2 cmdReset);
    (Reset, Wait WriteSettle (writeDelay p));
    (PowerDown1, WriteReg MagCNTL modePowerDown);
    (PowerDown1, Wait WriteSettle (writeDelay p));
    (FuseMode, WriteReg MagCNTL modeFuseROM);
    (FuseMode, Wait WriteSettle (writeDelay p));
    (ReadCalibration, ReadBlock MagASA 3);
    (ReadCalibration, Wait ReadSettle (readDelay p));
    (PowerDown2, WriteReg MagCNTL modePowerDown);
    (PowerDown2, Wait WriteSettle (writeDelay p));
    (SetMode, WriteReg MagCNTL (cntlValue (scale p) (mode p)));
    (SetMode, Wait WriteSettle (writeDelay p));
    (ConfigureContinuousRead, WriteReg HostRelay (sampleRateDivider p));
    (ConfigureContinuousRead, Wait WriteSettle (writeDelay p)) ].

(** A bounded universal quantifier that computes: [p] holds on the [n]
    integers from [lo] on. *)
Fixpoint all_from (lo : Z) (n : nat) (p : Z -> bool) : bool :=
  match n with
  | O => true
  | S k => p lo && all_from (lo + 1) k p
  end.

(** The check behind the calibration formula: the [float64] adjustment of a
    trim byte is finite, equal to the rational formula, and within
    [1/2, 383/256]. *)
Definition adjustment_check (t : Z) : bool :=
  match Q_of_float64 (adjustment t) with
  | Some q =>
      Qeq_bool q (adjustmentQ t) && Qle_bool (1 # 2) q && Qle_bool q (383 # 256)
  | None => false
  end.

(** The gain constants of both tables, each once. *)
Definition gainConstants : list Z :=
  [1370; 1090; 820; 660; 440; 390; 330; 230;
   1330; 980; 600; 400; 355; 295; 205].

(** The check behind the scaling: the [float64] product of a count [c] and
    a gain constant [l] is finite, and its integer part [t] is within one of
    the exact value [c * 1000 / l] and no larger in magnitude. *)
Definition scaling_check (l c : Z) : bool :=
  match trunc_float64 (scaled_float64 c l) with
  | Some t =>
      (Z.abs (t * l - c * 1000) <=? l) && (Z.abs t * l <=? Z.abs c * 1000)
  | None => false
  end.

(** A mock bus for the examples: it records what is sent and answers every
    read with the same block. *)
Definition mockTx (block : list Z) (addr : Z) (w : list Z) (n : nat)
  (log : list (Z * list Z)) : list (Z * list Z) * (unit + list Z) :=
  (log ++ [(addr, w)], inr block).

(** A mock transport for the examples: it counts the calls, answers a read
    with the given trim bytes, and fails at the call whose number is
    [failAt]. *)
Definition mockWrite (failAt : option nat) (r : Reg) (v : Z) (n : nat)
  : nat * option unit :=
  (S n, match failAt with
        | Some k => if Nat.eqb k n then Some tt else None
        | None => None
        end).

Definition mockReadBlock (failAt : option nat) (trimBytes : list Z)
  (r : Reg) (len : nat) (n : nat) : nat * (unit + list Z) :=
  (S n, match failAt with
        | Some k => if Nat.eqb k n then inl tt else inr trimBytes
        | None => inr trimBytes
        end).

(** The standard configuration of MAG_README.md, section 3. *)
Definition standardConfig : Config :=
  {| MagWriteDelayMS := 50; MagReadDelayMS := 2; MagScale := 1;
     MagMode := 0x06; MagSampleRateDivider := 1;
     RegisterDebugMagWriteDelay := -1; RegisterDebugMagReadDelay := -1;
     RegisterDebugMagUnsafeMode := false |}.

Definition standardParams : EffectiveParameters :=
  {| writeDelay := 50 * Millisecond; readDelay := 2 * Millisecond;
     scale := 1; mode := 0x06; sampleRateDivider := 1 |}.

(** ** mpu9250/MAG_README.md: the callers of the driver *)

Module Sensors.

Import MPU9250.

(** [time.Duration(ms) * time.Millisecond], an [int64] product. *)
Definition durationOfMs (ms : Z) : Z := wrap 64 (ms * Millisecond).

(** The line the register debug tool logs (section 4.4). *)
Inductive DebugLogLine : Type :=
| WarnExperimentalWriteDelay (ms : Z).

(** The write delay of the register debug tool (section 4.4): the standard
    delay, replaced by the override when the override is positive. *)
Definition registerDebugWriteDelay (cfg : Config) : list DebugLogLine * Z :=
  let writeDelay := durationOfMs (MagWriteDelayMS cfg) in
  if RegisterDebugMagWriteDelay cfg >? 0 then
    ([WarnExperimentalWriteDelay (RegisterDebugMagWriteDelay cfg)],
     durationOfMs (RegisterDebugMagWriteDelay cfg))
  else ([], writeDelay).

Section Manager.

(** [InitMag] of the driver is not in the source: it is a parameter, acting
    on the hardware [HW] through a driver handle [IMU]. *)
Variable IMU : Type.
Variable HW : Type.
Variable Err : Type.
Variable MagCal : Type.
Variable InitMag : IMU -> Z -> Z -> Z -> Z -> HW -> HW * (Err + MagCal).

(** The fields of [IMUManager] that [Init] uses; [None] is [nil]. *)
Record IMUManager : Type := mkManager {
  leftIMU : option IMU;
  rightIMU : option IMU;
  leftMagCal : option MagCal;
  rightMagCal : option MagCal
}.

(** The errors of [Init]: ["left mag init: %w"] and ["right mag init: %w"]. *)
Inductive InitFailure : Type :=
| LeftMagInit (e : Err)
| RightMagInit (e : Err).

(** [IMUManager.Init] (section 4.3): the manager and the hardware after the
    call, and the error, [None] for [nil]. *)
Definition Init (cfg : Config) (m : IMUManager) (hw : HW)
  : IMUManager * HW * option InitFailure :=
  let writeDelay := durationOfMs (MagWriteDelayMS cfg) in
  let readDelay := durationOfMs (MagReadDelayMS cfg) in
  let left :=
    match leftIMU m with
    | Some imu =>
        match InitMag imu writeDelay readDelay (MagScale cfg) (MagMode cfg) hw with
        | (hw1, inl e) => (m, hw1, Some (LeftMagInit e))
        | (hw1, inr magCal) =>
            ({| leftIMU := leftIMU m; rightIMU := rightIMU m;
                leftMagCal := Some magCal; rightMagCal := rightMagCal m |},
             hw1, None)
        end
    | None => (m, hw, None)
    end in
  match left with
  | (m1, hw1, Some e) => (m1, hw1, Some e)
  | (m1, hw1, None) =>
      match rightIMU m1 with
      | Some imu =>
          match InitMag imu writeDelay readDelay (MagScale cfg) (MagMode cfg) hw1 with
          | (hw2, inl e) => (m1, hw2, Some (RightMagInit e))
          | (hw2, inr magCal) =>
              ({| leftIMU := leftIMU m1; rightIMU := rightIMU m1;
                  leftMagCal := leftMagCal m1; rightMagCal := Some magCal |},
               hw2, None)
          end
      | None => (m1, hw1, None)
      end
  end.

End Manager.

Arguments mkManager {IMU MagCal} leftIMU rightIMU leftMagCal rightMagCal.
Arguments leftIMU {IMU MagCal} i.
Arguments rightIMU {IMU MagCal} i.
Arguments leftMagCal {IMU MagCal} i.
Arguments rightMagCal {IMU MagCal} i.
Arguments LeftMagInit {Err} e.
Arguments RightMagInit {Err} e.
Arguments Init {IMU HW Err MagCal} InitMag cfg m hw.

End Sensors.

Import Sensors.

(** ** Vocabulary of the further properties *)

(** The address [New] gives the device. *)
Definition effectiveAddr (opts : Opts) : Z :=
  if Addr opts =? 0 then DefaultAddr else Addr opts.

(** [opts] with another output data rate, averaging or mode. *)
Definition withODRHz (r : Z) (opts : Opts) : Opts :=
  {| ODRHz := r; AvgSamples := AvgSamples opts; GainCode := GainCode opts;
     Mode := Mode opts; Addr := Addr opts |}.

Definition withAvgSamples (a : Z) (opts : Opts) : Opts :=
  {| ODRHz := ODRHz opts; AvgSamples := a; GainCode := GainCode opts;
     Mode := Mode opts; Addr := Addr opts |}.

Definition withMode (s : string) (opts : Opts) : Opts :=
  {| ODRHz := ODRHz opts; AvgSamples := AvgSamples opts;
     GainCode := GainCode opts; Mode := s; Addr := Addr opts |}.

(** A bus seen through one address only: whatever address the driver asks
    for, the transaction goes to [a]. *)
Definition pinned {BusSt BusErr : Type}
  (Tx : Z -> list Z -> nat -> BusSt -> BusSt * (BusErr + list Z)) (a : Z)
  : Z -> list Z -> nat -> BusSt -> BusSt * (BusErr + list Z) :=
  fun _ w n b => Tx a w n b.

(** The two bytes of a signed 16-bit count, and the block the device sends
    for the counts X, Y, Z: X MSB, X LSB, Z MSB, Z LSB, Y MSB, Y LSB. *)
Definition msb16 (v : Z) : Z := (v mod 65536) / 256.

Definition lsb16 (v : Z) : Z := v mod 256.

Definition wireBlock (x y z : Z) : list Z :=
  [msb16 x; lsb16 x; msb16 z; lsb16 z; msb16 y; lsb16 y].

(** [cfg] with the unsafe flag set or cleared. *)
Definition withUnsafeMode (u : bool) (cfg : Config) : Config :=
  {| MagWriteDelayMS := MagWriteDelayMS cfg;
     MagReadDelayMS := MagReadDelayMS cfg;
     MagScale := MagScale cfg;
     MagMode := MagMode cfg;
     MagSampleRateDivider := MagSampleRateDivider cfg;
     RegisterDebugMagWriteDelay := RegisterDebugMagWriteDelay cfg;
     RegisterDebugMagReadDelay := RegisterDebugMagReadDelay cfg;
     RegisterDebugMagUnsafeMode := u |}.

(** A driver for the examples: [InitMag] counts its calls on the hardware
    and fails for the handle [failing]. *)
Definition mockInitMag (failing : option nat) (imu : nat)
  (writeDelay readDelay scale mode : Z) (calls : nat)
  : nat * (unit + Z) :=
  (S calls,
   match failing with
   | Some k => if Nat.eqb k imu then inl tt else inr writeDelay
   | None => inr writeDelay
   end).

(** The bits [New] sets in CRA for the averaging and for the output data
    rate, and the CRA byte of the options. *)
Definition avgBits (cra a : Z) : Z :=
  match a with
  | 8 => or8 cra (Z.shiftl 3 5)
  | 4 => or8 cra (Z.shiftl 2 5)
  | 2 => or8 cra (Z.shiftl 1 5)
  | _ => or8 cra (Z.shiftl 0 5)
  end.

Definition odrBits (cra r : Z) : Z :=
  match r with
  | 75 => or8 cra (Z.shiftl 6 2)
  | 30 => or8 cra (Z.shiftl 4 2)
  | 15 => or8 cra (Z.shiftl 3 2)
  | 7 => or8 cra (Z.shiftl 2 2)
  | 3 => or8 cra (Z.shiftl 1 2)
  | _ => or8 cra (Z.shiftl 3 2)
  end.

Definition craOf (opts : Opts) : Z :=
  odrBits (avgBits 0 (AvgSamples opts)) (ODRHz opts).

(** The MODE byte of the options. *)
Definition modeOf (opts : Opts) : Z :=
  if String.eqb (Mode opts) "single" then 0x01 else 0x00.

(** The second half of [New]: the three register writes and the sleep, for
    the address, gain code, CRA byte and MODE byte the first half computed. *)
Definition programDevice {BusSt BusErr : Type}
  (Tx : Z -> list Z -> nat -> BusSt -> BusSt * (BusErr + list Z))
  (addr gc cra mode : Z) : M BusSt BusErr Dev :=
  let d := {| dev_addr := addr;
              lsbPerGaXY := nth (Z.to_nat gc) gainXY 0;
              lsbPerGaZ := nth (Z.to_nat gc) gainZ 0 |} in
  bind _ _ (writeReg Tx d regCRA cra) (fun _ =>
  bind _ _ (writeReg Tx d regCRB (shl8 (byte gc) 5)) (fun _ =>
  bind _ _ (writeReg Tx d regMODE mode) (fun _ =>
  bind _ _ (sleep _ _ (10 * Millisecond)) (fun _ =>
  ret _ _ d)))).

(** The time a trace spends in settle waits. *)
Definition totalWait (tr : list Event) : Z :=
  fold_right Z.add 0 (map snd (waitsOf tr)).

(** * Properties *)

(** ** Machine integers *)

Lemma int16_small z : in_int16 z -> int16 z = z.
Proof.
  unfold in_int16, int16, wrap. intros H.
  change (2 ^ (16 - 1)) with 32768. change (2 ^ 16) with 65536.
  rewrite Z.mod_small; lia.
Qed.

Lemma int16_range z : in_int16 (int16 z).
Proof.
  unfold in_int16, int16, wrap.
  change (2 ^ (16 - 1)) with 32768. change (2 ^ 16) with 65536.
  pose proof (Z.mod_pos_bound (z + 32768) 65536). lia.
Qed.

Lemma land_shifted_low a lo :
  0 <= lo < 256 -> Z.land (a * 256) lo = 0.
Proof.
  intros Hlo. apply Z.bits_inj'. intros n Hn.
  rewrite Z.land_spec, Z.bits_0.
  change 256 with (2 ^ 8). rewrite <- Z.shiftl_mul_pow2 by lia.
  destruct (Z.ltb_spec n 8) as [Hlt | Hge].
  - rewrite Z.shiftl_spec_low by lia. reflexivity.
  - replace lo with (lo mod 2 ^ 8) by (apply Z.mod_small; exact Hlo).
    rewrite Z.mod_pow2_bits_high by lia. apply andb_false_r.
Qed.

Lemma lor_shifted_low a lo :
  0 <= lo < 256 -> Z.lor (a * 256) lo = a * 256 + lo.
Proof.
  intros Hlo. pose proof (land_shifted_low a lo Hlo) as Hland.
  rewrite <- (Z.lxor_lor _ _ Hland). symmetry.
  apply Z.add_nocarry_lxor. exact Hland.
Qed.

(** The two bytes of a count, joined as the driver joins them. *)
Lemma join_bytes hi lo :
  is_byte hi -> is_byte lo ->
  or16 (shl16 (int16 hi) 8) (int16 lo) = int16_be hi lo.
Proof.
  unfold is_byte. intros Hhi Hlo.
  rewrite (int16_small hi) by (unfold in_int16; lia).
  rewrite (int16_small lo) by (unfold in_int16; lia).
  unfold or16, shl16, int16_be. rewrite Z.shiftl_mul_pow2 by lia.
  change (2 ^ 8) with 256.
  destruct (Z.ltb_spec (256 * hi + lo) 32768) as [Hs | Hs].
  - rewrite (int16_small (hi * 256)) by (unfold in_int16; lia).
    rewrite lor_shifted_low by lia.
    rewrite int16_small by (unfold in_int16; lia). lia.
  - assert (Hw : int16 (hi * 256) = (hi - 256) * 256).
    { unfold int16, wrap.
      change (2 ^ (16 - 1)) with 32768. change (2 ^ 16) with 65536.
      replace (hi * 256 + 32768) with ((hi * 256 - 32768) + 1 * 65536) by lia.
      rewrite Z.mod_add by lia. rewrite Z.mod_small by lia. lia. }
    rewrite Hw. rewrite lor_shifted_low by lia.
    rewrite int16_small by (unfold in_int16; lia). lia.
Qed.

(** ** HMC5983: the constructor and the raw read *)

Section HMC5983_facts.

Context {BusSt BusErr : Type}.
Variable Tx : Z -> list Z -> nat -> BusSt -> BusSt * (BusErr + list Z).

Lemma readRegBlock_ok d addr n w b' rd :
  n <> 0%nat ->
  Tx (dev_addr d) [addr] n (bus w) = (b', inr rd) ->
  readRegBlock Tx d addr n w = (mkWorld b' (slept w), inr (fill n rd)).
Proof.
  intros Hn HTx. unfold readRegBlock.
  destruct (Nat.eqb_spec n 0) as [E | _]; [contradiction |].
  unfold devTx. rewrite HTx. reflexivity.
Qed.

Lemma readRegBlock_err d addr n w b' e :
  n <> 0%nat ->
  Tx (dev_addr d) [addr] n (bus w) = (b', inl e) ->
  readRegBlock Tx d addr n w = (mkWorld b' (slept w), inl (TxError e)).
Proof.
  intros Hn HTx. unfold readRegBlock.
  destruct (Nat.eqb_spec n 0) as [E | _]; [contradiction |].
  unfold devTx. rewrite HTx. reflexivity.
Qed.

Lemma effectiveGainCode_range opts : 0 <= effectiveGainCode opts <= 7.
Proof.
  unfold effectiveGainCode.
  destruct (Z.ltb_spec (GainCode opts) 0); cbn [orb]; [lia |].
  destruct (Z.gtb_spec (GainCode opts) 7); lia.
Qed.

(** [New] fails only when one of its three register writes fails, and the
    device it returns carries the scale factors of the effective gain
    code. *)
Lemma New_device opts w w' d :
  New Tx opts w = (w', inr d) ->
  lsbPerGaXY d = nth (Z.to_nat (effectiveGainCode opts)) gainXY 0 /\
  lsbPerGaZ d = nth (Z.to_nat (effectiveGainCode opts)) gainZ 0.
Proof.
  unfold New, bind, writeReg, bind, devTx, sleep, ret.
  fold (effectiveGainCode opts).
  repeat match goal with
         | |- context [Tx ?a ?b ?c ?s] =>
             let b' := fresh "b" in let r := fresh "r" in
             destruct (Tx a b c s) as [b' [r | r]]; cbn [bus slept]
         end; intros H; inversion H; subst; cbn; auto.
Qed.

Lemma New_gain_constants opts w w' d :
  New Tx opts w = (w', inr d) ->
  In (lsbPerGaXY d) gainXY /\ In (lsbPerGaZ d) gainZ.
Proof.
  intros H. destruct (New_device _ _ _ _ H) as [-> ->].
  pose proof (effectiveGainCode_range opts) as Hr.
  split; apply nth_In; cbn; lia.
Qed.

End HMC5983_facts.

(** C9.  For every 6-byte block the bus delivers from the data registers,
    [SenseRaw] returns X from bytes 0-1, Y from bytes 4-5 and Z from bytes
    2-3, each the big-endian signed 16-bit value of its two bytes: the
    device's X, Z, Y wire order comes back as X, Y, Z. *)
Theorem SenseRaw_wire_order :
  forall (BusSt BusErr : Type)
         (Tx : Z -> list Z -> nat -> BusSt -> BusSt * (BusErr + list Z))
         (d : Dev) (w : World BusSt) (b' : BusSt) (b0 b1 b2 b3 b4 b5 : Z),
    Forall is_byte [b0; b1; b2; b3; b4; b5] ->
    Tx (dev_addr d) [regDATA] 6%nat (bus w) = (b', inr [b0; b1; b2; b3; b4; b5]) ->
    SenseRaw Tx d w =
      (mkWorld b' (slept w),
       inr (int16_be b0 b1, int16_be b4 b5, int16_be b2 b3)).
Proof.
  intros BusSt BusErr Tx d w b' b0 b1 b2 b3 b4 b5 Hbytes HTx.
  repeat match goal with
         | H : Forall _ (_ :: _) |- _ => inversion H; subst; clear H
         end.
  unfold SenseRaw, bind.
  rewrite (readRegBlock_ok Tx d regDATA 6 w b' _ ltac:(discriminate) HTx).
  cbn [fill firstn app repeat at_index nth ret].
  rewrite !join_bytes by assumption. reflexivity.
Qed.

Lemma SenseRaw_wire_order_witness :
  SenseRaw (mockTx [0x12; 0x34; 0xFF; 0xFE; 0x80; 0x00])
    (mkDev DefaultAddr 1090 980) (mkWorld [] []) =
  (mkWorld [(DefaultAddr, [regDATA])] [], inr (4660, -32768, -2)).
Proof.
  apply (SenseRaw_wire_order _ _
           (mockTx [0x12; 0x34; 0xFF; 0xFE; 0x80; 0x00])
           (mkDev DefaultAddr 1090 980) (mkWorld [] [])
           [(DefaultAddr, [regDATA])] 0x12 0x34 0xFF 0xFE 0x80 0x00).
  - repeat constructor; unfold is_byte; lia.
  - reflexivity.
Defined.

(** A failed read of the data registers is an error of [SenseRaw]. *)
Lemma SenseRaw_error :
  forall (BusSt BusErr : Type)
         (Tx : Z -> list Z -> nat -> BusSt -> BusSt * (BusErr + list Z))
         (d : Dev) (w : World BusSt) (b' : BusSt) (e : BusErr),
    Tx (dev_addr d) [regDATA] 6%nat (bus w) = (b', inl e) ->
    SenseRaw Tx d w = (mkWorld b' (slept w), inl (TxError e)).
Proof.
  intros BusSt BusErr Tx d w b' e HTx. unfold SenseRaw, bind.
  rewrite (readRegBlock_err Tx d regDATA 6 w b' e ltac:(discriminate) HTx).
  reflexivity.
Qed.

(** C10.  With a gain code outside [0, 7], [New] behaves in every respect
    as with gain code 1: the same bus traffic, the same result, hence no
    error that gain code 1 would not give; the device it returns has
    [lsbPerGaXY = 1090] and [lsbPerGaZ = 980]; and with a bus that never
    fails it returns a device. *)
Theorem New_gain_code_out_of_range :
  forall (BusSt BusErr : Type)
         (Tx : Z -> list Z -> nat -> BusSt -> BusSt * (BusErr + list Z))
         (opts : Opts) (w : World BusSt),
    GainCode opts < 0 \/ 7 < GainCode opts ->
    New Tx opts w = New Tx (withGainCode 1 opts) w /\
    (forall w' d, New Tx opts w = (w', inr d) ->
                  lsbPerGaXY d = 1090 /\ lsbPerGaZ d = 980) /\
    ((forall a wr n b, exists b', exists rd, Tx a wr n b = (b', inr rd)) ->
     exists w', exists d, New Tx opts w = (w', inr d)).
Proof.
  intros BusSt BusErr Tx opts w Hout.
  assert (Hgc : effectiveGainCode opts = 1).
  { unfold effectiveGainCode.
    destruct (Z.ltb_spec (GainCode opts) 0); cbn [orb]; [reflexivity |].
    destruct (Z.gtb_spec (GainCode opts) 7); [reflexivity | lia]. }
  split; [| split].
  - unfold New. fold (effectiveGainCode opts).
    fold (effectiveGainCode (withGainCode 1 opts)).
    rewrite Hgc. reflexivity.
  - intros w' d H. destruct (New_device Tx _ _ _ _ H) as [-> ->].
    rewrite Hgc. split; reflexivity.
  - intros Hok. unfold New, bind, writeReg, bind, devTx, sleep, ret.
    repeat match goal with
           | |- context [Tx ?a ?b ?c ?s] =>
               let b' := fresh "b" in let rd := fresh "rd" in
               let E := fresh "E" in
               destruct (Hok a b c s) as [b' [rd E]]; rewrite E;
               cbn [bus slept]
           end.
    eexists. eexists. reflexivity.
Qed.

Lemma New_gain_code_out_of_range_witness :
  New (mockTx []) (mkOpts 15 1 9 "continuous" 0) (mkWorld [] []) =
  New (mockTx []) (mkOpts 15 1 1 "continuous" 0) (mkWorld [] []).
Proof.
  apply (New_gain_code_out_of_range _ _ (mockTx [])
           (mkOpts 15 1 9 "continuous" 0) (mkWorld [] [])).
  right. cbn. lia.
Defined.

(** The registers [New] writes for gain code 9 are those for gain code 1:
    [CRB = 0x20]. *)
Example New_gain_code_9 :
  New (mockTx []) (mkOpts 15 1 9 "continuous" 0) (mkWorld [] []) =
  (mkWorld [(0x1E, [regCRA; 0x0C]); (0x1E, [regCRB; 0x20]); (0x1E, [regMODE; 0x00])]
           [10 * Millisecond],
   inr (mkDev 0x1E 1090 980)).
Proof. reflexivity. Qed.

(** ** The initialization sequence *)

Lemma cntlValue_valid s m :
  valid_scale s -> valid_mode m ->
  cntlValue s m = Z.lor (Z.shiftl s 4) m /\ cntlValue s m = 16 * s + m /\
  is_byte (cntlValue s m).
Proof.
  unfold valid_scale, valid_mode, is_byte. cbn [In]. intros Hs Hm.
  destruct Hs as [-> | ->];
    repeat (destruct Hm as [<- | Hm]; [cbn; lia |]); contradiction.
Qed.

Section Sequencer_facts.

Context {TS TransportError : Type}.
Variable write : Reg -> Z -> TS -> TS * option TransportError.
Variable readBlock : Reg -> nat -> TS -> TS * (TransportError + list Z).
Variable p : EffectiveParameters.


(** [Ready] and [Failed] are terminal. *)
Lemma advance_terminal (m : Machine TS TransportError) :
  state m = Ready \/ state m = Failed -> advance write readBlock p m = m.
Proof. unfold Sequencer.advance. intros [-> | ->]; reflexivity. Qed.

Lemma run_terminal n (m : Machine TS TransportError) :
  state m = Ready \/ state m = Failed -> run write readBlock n p m = m.
Proof.
  induction n as [| n IH]; intros H; cbn [Sequencer.run]; [reflexivity |].
  rewrite (advance_terminal m H). apply IH. exact H.
Qed.

(** One tactic step: case analysis on the next transport call. *)
Ltac next_call :=
  match goal with
  | |- context [write ?r ?v ?t] =>
      is_var t;
      let ts := fresh "ts" in let e := fresh "e" in
      destruct (write r v t) as [ts [e |]]
  | |- context [readBlock ?r ?n ?t] =>
      is_var t;
      let ts := fresh "ts" in let e := fresh "e" in
      let bytes := fresh "bytes" in
      destruct (readBlock r n t) as [ts [e | bytes]]
  end;
  cbn -[Z.mul cntlValue]; try discriminate.

(** A full run that reaches [Ready] went through the seven steps in the
    fixed order, and its trace is the fixed one. *)
Lemma fullRun_ready_trace ts :
  state (fullRun write readBlock p ts) = Ready ->
  visited write readBlock 8 p (start ts) =
    Idle :: map Running fixedOrder ++ [Ready] /\
  trace (fullRun write readBlock p ts) = expectedTrace p.
Proof.
  unfold Sequencer.fullRun, Sequencer.start.
  cbn -[Z.mul cntlValue].
  do 7 next_call.
  intros _. split; reflexivity.
Qed.

(** With a transport that never fails, a full run reaches [Ready]. *)
Lemma fullRun_reaches_ready ts :
  (forall r v t, snd (write r v t) = None) ->
  (forall r n t, exists bytes, snd (readBlock r n t) = inr bytes) ->
  state (fullRun write readBlock p ts) = Ready.
Proof.
  intros Hw Hr.
  unfold Sequencer.fullRun, Sequencer.start.
  cbn -[Z.mul cntlValue].
  repeat match goal with
         | |- context [write ?r ?v ?t] =>
             is_var t;
             let E := fresh "E" in
             pose proof (Hw r v t) as E;
             destruct (write r v t) as [? [? |]]; cbn in E;
             [discriminate E |]; clear E; cbn -[Z.mul cntlValue]
         | |- context [readBlock ?r ?n ?t] =>
             is_var t;
             let E := fresh "E" in
             destruct (Hr r n t) as [? E];
             destruct (readBlock r n t) as [? [? | ?]]; cbn in E;
             [discriminate E |]; clear E; cbn -[Z.mul cntlValue]
         end.
  reflexivity.
Qed.

(** Fewer than eight transitions from [Idle] never reach [Ready]. *)
Lemma run_short_not_ready n ts :
  (n < 8)%nat -> state (run write readBlock n p (start ts)) <> Ready.
Proof.
  intros Hn. unfold Sequencer.start.
  do 8 (destruct n as [| n];
        [cbn -[Z.mul cntlValue]; repeat next_call; discriminate |]).
  lia.
Qed.

End Sequencer_facts.

(** C1.  For every [writeDelay] in [50 ms, 200 ms] and every valid scale
    and mode: with a transport that never fails a full run from [Idle]
    reaches [Ready]; a full run that reaches [Ready] performed exactly the
    seven settle waits of the fixed order, six write-type waits of
    [writeDelay] and one read-type wait of [readDelay], through the states
    [Idle], [Reset], [PowerDown1], [FuseMode], [ReadCalibration],
    [PowerDown2], [SetMode], [ConfigureContinuousRead], [Ready]; and no
    shorter run reaches [Ready], so no other order is possible. *)
Theorem full_initialization_waits :
  forall (TS TransportError : Type)
         (write : Reg -> Z -> TS -> TS * option TransportError)
         (readBlock : Reg -> nat -> TS -> TS * (TransportError + list Z))
         (p : EffectiveParameters) (ts : TS),
    50 * Millisecond <= writeDelay p <= 200 * Millisecond ->
    valid_scale (scale p) -> valid_mode (mode p) ->
    ((forall r v t, snd (write r v t) = None) ->
     (forall r n t, exists bytes, snd (readBlock r n t) = inr bytes) ->
     state (fullRun write readBlock p ts) = Ready) /\
    (state (fullRun write readBlock p ts) = Ready ->
     waitsOf (trace (fullRun write readBlock p ts)) = expectedWaits p /\
     countWaits WriteSettle (trace (fullRun write readBlock p ts)) = 6%nat /\
     countWaits ReadSettle (trace (fullRun write readBlock p ts)) = 1%nat /\
     visited write readBlock 8 p (start ts) =
       Idle :: map Running fixedOrder ++ [Ready]) /\
    (forall n, (n < 8)%nat ->
               state (run write readBlock n p (start ts)) <> Ready).
Proof.
  intros TS TransportError write readBlock p ts _ _ _.
  split; [| split].
  - apply fullRun_reaches_ready.
  - intros Hready.
    destruct (fullRun_ready_trace write readBlock p ts Hready) as [Hv Ht].
    rewrite Ht. repeat split; try reflexivity. exact Hv.
  - intros n Hn. apply run_short_not_ready. exact Hn.
Qed.

Lemma full_initialization_waits_witness :
  waitsOf (trace (fullRun (mockWrite None) (mockReadBlock None [128; 128; 128])
                    standardParams 0%nat)) =
  expectedWaits standardParams.
Proof.
  destruct (full_initialization_waits nat unit (mockWrite None)
              (mockReadBlock None [128; 128; 128]) standardParams 0%nat)
    as [_ [H _]].
  - unfold standardParams, Millisecond. cbn. lia.
  - right. reflexivity.
  - unfold valid_mode. cbn. tauto.
  - apply H. reflexivity.
Defined.

(** C6.  For every valid scale and mode, the [SetMode] step writes the byte
    [(scale << 4) | mode] to the device control register and, the write
    done, waits [writeDelay] and moves on; in a full run that reaches
    [Ready] these two are all that [SetMode] did. *)
Theorem SetMode_writes_scale_and_mode :
  forall (TS TransportError : Type)
         (write : Reg -> Z -> TS -> TS * option TransportError)
         (readBlock : Reg -> nat -> TS -> TS * (TransportError + list Z))
         (p : EffectiveParameters) (ts : TS),
    valid_scale (scale p) -> valid_mode (mode p) ->
    (forall (m : Machine TS TransportError) (ts' : TS),
        state m = Running SetMode ->
        write MagCNTL (Z.lor (Z.shiftl (scale p) 4) (mode p)) (transport m)
          = (ts', None) ->
        advance write readBlock p m =
          mkMachine (Running ConfigureContinuousRead) ts'
            (trace m ++
             [ (SetMode, WriteReg MagCNTL (Z.lor (Z.shiftl (scale p) 4) (mode p)));
               (SetMode, Wait WriteSettle (writeDelay p)) ])
            (trim m) (failure m)) /\
    (state (fullRun write readBlock p ts) = Ready ->
     actionsOf SetMode (trace (fullRun write readBlock p ts)) =
       [ WriteReg MagCNTL (Z.lor (Z.shiftl (scale p) 4) (mode p));
         Wait WriteSettle (writeDelay p) ]).
Proof.
  intros TS TransportError write readBlock p ts Hs Hm.
  destruct (cntlValue_valid _ _ Hs Hm) as [Hv _].
  split.
  - intros m ts' Hst Hw. unfold advance. rewrite Hst.
    cbn [writeOf]. rewrite Hv, Hw. reflexivity.
  - intros Hready.
    destruct (fullRun_ready_trace write readBlock p ts Hready) as [_ Ht].
    rewrite Ht. unfold expectedTrace. rewrite Hv. reflexivity.
Qed.

Lemma SetMode_writes_scale_and_mode_witness :
  actionsOf SetMode
    (trace (fullRun (mockWrite None) (mockReadBlock None [128; 128; 128])
              standardParams 0%nat)) =
  [ WriteReg MagCNTL 0x16; Wait WriteSettle (50 * Millisecond) ].
Proof.
  destruct (SetMode_writes_scale_and_mode nat unit (mockWrite None)
              (mockReadBlock None [128; 128; 128]) standardParams 0%nat)
    as [_ H].
  - right. reflexivity.
  - unfold valid_mode. cbn. tauto.
  - apply H. reflexivity.
Defined.

(** ** Configuration *)

Lemma validModes_lookup m :
  lookup validModes m <> None <-> valid_mode m.
Proof.
  unfold valid_mode, validModes. cbn [lookup In].
  repeat match goal with
         | |- context [?a =? m] => destruct (Z.eqb_spec a m)
         end;
    split; intros H; try congruence; try tauto; try discriminate.
Qed.

Lemma validModesParam_lookup m :
  lookup validModesParam m = Some true <-> valid_mode m.
Proof.
  unfold valid_mode, validModesParam. cbn [lookup In].
  repeat match goal with
         | |- context [?a =? m] => destruct (Z.eqb_spec a m)
         end;
    split; intros H; try congruence; try tauto; try discriminate.
Qed.

(** [validateMagParams] accepts exactly the delays of at least 1 ms with a
    valid scale and a valid mode: the driver and the configuration agree on
    what a valid scale and a valid mode are. *)
Lemma validateMagParams_accepts_iff wd rd s m :
  is_byte s ->
  (validateMagParams wd rd s m = None <->
   Millisecond <= wd /\ Millisecond <= rd /\ valid_scale s /\ valid_mode m).
Proof.
  unfold is_byte, valid_scale. intros Hs.
  pose proof (validModesParam_lookup m) as Hm.
  unfold validateMagParams.
  destruct (Z.ltb_spec wd Millisecond); [split; [discriminate | lia] |].
  destruct (Z.ltb_spec rd Millisecond); [split; [discriminate | lia] |].
  destruct (Z.gtb_spec s 1); [split; [discriminate | lia] |].
  destruct (lookup validModesParam m) as [[|] |].
  - split; [intros _ | reflexivity].
    repeat split; try lia. apply Hm. reflexivity.
  - split; [discriminate |]. intros (_ & _ & _ & Hv).
    apply Hm in Hv. discriminate.
  - split; [discriminate |]. intros (_ & _ & _ & Hv).
    apply Hm in Hv. discriminate.
Qed.

Lemma validateMagConfig_error_iff cfg :
  wf_config cfg ->
  (snd (validateMagConfig cfg) <> None <-> standardSetInvalid cfg).
Proof.
  unfold wf_config, is_byte, standardSetInvalid, valid_scale.
  intros (Hs & _ & _).
  pose proof (validModes_lookup (MagMode cfg)) as Hmode.
  unfold validateMagConfig.
  destruct (Z.ltb_spec (MagWriteDelayMS cfg) 1); cbn [orb].
  { cbn. split; [intros _; lia | discriminate]. }
  destruct (Z.gtb_spec (MagWriteDelayMS cfg) 200).
  { cbn. split; [intros _; lia | discriminate]. }
  destruct (Z.ltb_spec (MagReadDelayMS cfg) 1); cbn [orb].
  { cbn. split; [intros _; lia | discriminate]. }
  destruct (Z.gtb_spec (MagReadDelayMS cfg) 50).
  { cbn. split; [intros _; lia | discriminate]. }
  destruct (Z.gtb_spec (MagScale cfg) 1).
  { cbn. split; [intros _; right; right; left; lia | discriminate]. }
  destruct (lookup validModes (MagMode cfg)) as [name |].
  - assert (Hvm : valid_mode (MagMode cfg)) by (apply Hmode; discriminate).
    destruct (Z.gtb_spec (MagSampleRateDivider cfg) 15).
    + cbn. split; [intros _; lia | discriminate].
    + cbn. split; [congruence |].
      intros [? | [? | [Hn | [Hn | ?]]]]; try lia. contradiction.
  - cbn. split; [| discriminate].
    intros _. right; right; right; left.
    intros Hvm. apply Hmode in Hvm. congruence.
Qed.

Lemma validateRegisterDebugMagConfig_no_override cfg :
  ~ override_set (RegisterDebugMagWriteDelay cfg) ->
  ~ override_set (RegisterDebugMagReadDelay cfg) ->
  snd (validateRegisterDebugMagConfig cfg) = None.
Proof.
  unfold override_set, validateRegisterDebugMagConfig. intros Hw Hr.
  destruct (Z.gtb_spec (RegisterDebugMagWriteDelay cfg) 0); [lia |].
  destruct (Z.gtb_spec (RegisterDebugMagReadDelay cfg) 0); [lia |].
  reflexivity.
Qed.

(** The Resolver fails exactly when one of the two validators does. *)
Lemma resolve_error_iff cfg :
  is_config_error (resolve cfg) <->
  snd (validateMagConfig cfg) <> None \/
  snd (validateRegisterDebugMagConfig cfg) <> None.
Proof.
  unfold is_config_error, resolve.
  destruct (validateMagConfig cfg) as [log1 [e1 |]]; cbn [snd].
  - split; [intros _; left; discriminate | trivial].
  - destruct (validateRegisterDebugMagConfig cfg) as [log2 [e2 |]]; cbn [snd].
    + split; [intros _; right; discriminate | trivial].
    + split; [contradiction | intros [H | H]; congruence].
Qed.

(** The log of the Resolver starts with the log of [validateMagConfig]. *)
Lemma resolve_log_prefix cfg :
  exists rest, fst (resolve cfg) = fst (validateMagConfig cfg) ++ rest.
Proof.
  unfold resolve.
  destruct (validateMagConfig cfg) as [log1 [e1 |]]; cbn [fst].
  - exists []. rewrite app_nil_r. reflexivity.
  - destruct (validateRegisterDebugMagConfig cfg) as [log2 [e2 |]];
      cbn [fst]; exists log2; reflexivity.
Qed.

(** A write delay in [1, 50) makes [validateMagConfig] log its warning, and
    nothing else is ever logged by it. *)
Lemma validateMagConfig_warns cfg :
  1 <= MagWriteDelayMS cfg < 50 ->
  fst (validateMagConfig cfg) =
    [WarnWriteDelayBelowRecommended (MagWriteDelayMS cfg)].
Proof.
  intros H. unfold validateMagConfig.
  destruct (Z.ltb_spec (MagWriteDelayMS cfg) 1); [lia |].
  destruct (Z.gtb_spec (MagWriteDelayMS cfg) 200); [lia |]. cbn [orb].
  destruct (Z.ltb_spec (MagWriteDelayMS cfg) 50); [| lia].
  destruct (_ || _); [reflexivity |].
  destruct (_ >? _); [reflexivity |].
  destruct (lookup _ _); [| reflexivity].
  destruct (_ >? _); reflexivity.
Qed.

(** C3.  For every standard configuration, [validateMagConfig] returns an
    error if and only if the write delay is outside [1, 200] ms, or the read
    delay is outside [1, 50] ms, or the scale is not 0 or 1, or the mode is
    not one of 0x00, 0x01, 0x02, 0x04, 0x06, 0x08, 0x0F, or the sample rate
    divider exceeds 15; with no debug override set the Resolver fails under
    the same condition; and when it fails no transport call was made: the
    transport is as it was and the trace is empty. *)
Theorem config_rejected_iff :
  forall cfg : Config,
    wf_config cfg ->
    (snd (validateMagConfig cfg) <> None <-> standardSetInvalid cfg) /\
    (~ override_set (RegisterDebugMagWriteDelay cfg) ->
     ~ override_set (RegisterDebugMagReadDelay cfg) ->
     (is_config_error (resolve cfg) <-> standardSetInvalid cfg)) /\
    (forall (TS TransportError : Type)
            (write : Reg -> Z -> TS -> TS * option TransportError)
            (readBlock : Reg -> nat -> TS -> TS * (TransportError + list Z))
            (ts : TS),
        is_config_error (resolve cfg) ->
        exists log, exists e,
          bringUp write readBlock cfg ts = (log, (ts, []), inl e)).
Proof.
  intros cfg Hwf. split; [| split].
  - apply validateMagConfig_error_iff. exact Hwf.
  - intros Hw Hr. rewrite resolve_error_iff.
    rewrite (validateRegisterDebugMagConfig_no_override cfg Hw Hr).
    rewrite <- (validateMagConfig_error_iff cfg Hwf).
    split; [intros [H | H]; [exact H | congruence] | intros H; left; exact H].
  - intros TS TransportError write readBlock ts Herr.
    unfold bringUp. unfold is_config_error in Herr.
    destruct (resolve cfg) as [log [e | prm]]; cbn [snd] in Herr;
      [| contradiction].
    exists log, e. reflexivity.
Qed.

Lemma config_rejected_iff_witness :
  exists log, exists e,
    bringUp (mockWrite None) (mockReadBlock None [128; 128; 128])
      (mkConfig 50 2 1 0x06 16 (-1) (-1) false) 0%nat
    = (log, (0%nat, []), inl e).
Proof.
  destruct (config_rejected_iff (mkConfig 50 2 1 0x06 16 (-1) (-1) false))
    as [_ [_ H]].
  - unfold wf_config, is_byte. cbn. lia.
  - apply H. cbn. exact I.
Defined.

(** Scenario C of the specification: a sample rate divider of 16 is
    rejected, and the mock transport has recorded no call. *)
Example scenario_C :
  bringUp (mockWrite None) (mockReadBlock None [128; 128; 128])
    (mkConfig 50 2 1 0x06 16 (-1) (-1) false) 0%nat
  = ([], (0%nat, []), inl (ErrSampleRateDivider 16)).
Proof. reflexivity. Qed.

(** What the Resolver returns when both validators pass. *)
Lemma resolve_ok cfg :
  snd (validateMagConfig cfg) = None ->
  snd (validateRegisterDebugMagConfig cfg) = None ->
  snd (resolve cfg) =
    inr {| writeDelay :=
             (if override_setb (RegisterDebugMagWriteDelay cfg)
              then RegisterDebugMagWriteDelay cfg
              else MagWriteDelayMS cfg) * Millisecond;
           readDelay :=
             (if override_setb (RegisterDebugMagReadDelay cfg)
              then RegisterDebugMagReadDelay cfg
              else MagReadDelayMS cfg) * Millisecond;
           scale := MagScale cfg;
           mode := MagMode cfg;
           sampleRateDivider := MagSampleRateDivider cfg |}.
Proof.
  unfold resolve.
  destruct (validateMagConfig cfg) as [log1 [e1 |]]; cbn [snd];
    [discriminate |]. intros _.
  destruct (validateRegisterDebugMagConfig cfg) as [log2 [e2 |]]; cbn [snd];
    [discriminate |]. intros _. reflexivity.
Qed.

(** C4, as amended.  For every standard configuration with a write delay in
    [1 ms, 50 ms) and no debug override set, the Resolver logs the warning
    for the write delay and does not reject on its account: it fails only
    when the read delay, the scale, the mode or the sample rate divider is
    invalid, and otherwise resolves with that write delay. *)
Theorem short_write_delay_warns :
  forall cfg : Config,
    wf_config cfg ->
    1 <= MagWriteDelayMS cfg < 50 ->
    ~ override_set (RegisterDebugMagWriteDelay cfg) ->
    ~ override_set (RegisterDebugMagReadDelay cfg) ->
    In (WarnWriteDelayBelowRecommended (MagWriteDelayMS cfg))
       (fst (resolve cfg)) /\
    (is_config_error (resolve cfg) <->
       (MagReadDelayMS cfg < 1 \/ 50 < MagReadDelayMS cfg) \/
       ~ valid_scale (MagScale cfg) \/
       ~ valid_mode (MagMode cfg) \/
       15 < MagSampleRateDivider cfg) /\
    (1 <= MagReadDelayMS cfg <= 50 ->
     valid_scale (MagScale cfg) -> valid_mode (MagMode cfg) ->
     MagSampleRateDivider cfg <= 15 ->
     snd (resolve cfg) =
       inr {| writeDelay := MagWriteDelayMS cfg * Millisecond;
              readDelay := MagReadDelayMS cfg * Millisecond;
              scale := MagScale cfg;
              mode := MagMode cfg;
              sampleRateDivider := MagSampleRateDivider cfg |}).
Proof.
  intros cfg Hwf Hwd Hw Hr.
  pose proof (validateRegisterDebugMagConfig_no_override cfg Hw Hr) as Hdbg.
  pose proof (validateMagConfig_error_iff cfg Hwf) as Hstd.
  assert (Herr : is_config_error (resolve cfg) <-> standardSetInvalid cfg).
  { rewrite resolve_error_iff, Hdbg, <- Hstd.
    split; [intros [H | H]; [exact H | congruence] | intros H; left; exact H]. }
  split; [| split].
  - destruct (resolve_log_prefix cfg) as [rest ->].
    rewrite (validateMagConfig_warns cfg Hwd). left. reflexivity.
  - rewrite Herr. unfold standardSetInvalid.
    split; [intros [H | H]; [lia | exact H] | intros H; right; exact H].
  - intros Hrd Hs Hm Hd.
    assert (Hnone : snd (validateMagConfig cfg) = None).
    { destruct (snd (validateMagConfig cfg)) as [e |] eqn:E; [| reflexivity].
      exfalso.
      assert (Hinv : standardSetInvalid cfg) by (apply Hstd; discriminate).
      unfold standardSetInvalid in Hinv.
      destruct Hinv as [? | [? | [? | [? | ?]]]];
        try lia; contradiction. }
    rewrite (resolve_ok cfg Hnone Hdbg).
    unfold override_set, override_setb in *.
    destruct (Z.gtb_spec (RegisterDebugMagWriteDelay cfg) 0); [lia |].
    destruct (Z.gtb_spec (RegisterDebugMagReadDelay cfg) 0); [lia |].
    reflexivity.
Qed.

Lemma short_write_delay_warns_witness :
  In (WarnWriteDelayBelowRecommended 10)
     (fst (resolve (mkConfig 10 2 1 0x06 1 (-1) (-1) false))).
Proof.
  apply (short_write_delay_warns (mkConfig 10 2 1 0x06 1 (-1) (-1) false)).
  - unfold wf_config, is_byte. cbn. lia.
  - cbn. lia.
  - unfold override_set. cbn. lia.
  - unfold override_set. cbn. lia.
Defined.

(** C4, the claim as stated fails: a write delay of 10 ms with no override
    and an otherwise valid standard set is resolved, with a warning, not
    rejected. *)
Lemma short_write_delay_is_not_rejected :
  resolve (mkConfig 10 2 1 0x06 1 (-1) (-1) false) =
    ([WarnWriteDelayBelowRecommended 10],
     inr (mkParams (10 * Millisecond) (2 * Millisecond) 1 0x06 1)) /\
  ~ (forall cfg : Config,
        wf_config cfg ->
        1 <= MagWriteDelayMS cfg < 50 ->
        ~ override_set (RegisterDebugMagWriteDelay cfg) ->
        ~ override_set (RegisterDebugMagReadDelay cfg) ->
        is_config_error (resolve cfg)).
Proof.
  split; [reflexivity |].
  intros H.
  apply (H (mkConfig 10 2 1 0x06 1 (-1) (-1) false)).
  - unfold wf_config, is_byte. cbn. lia.
  - cbn. lia.
  - unfold override_set. cbn. lia.
  - unfold override_set. cbn. lia.
Qed.

(** C5.  For every debug override that is set: an override write delay
    above 500 ms (the only way a set override leaves [1, 500]) and an
    override read delay above 100 ms are rejected; an override write delay
    in [1 ms, 50 ms) is rejected when [unsafe] is false; and the same
    override with [unsafe] true passes the validation of the override,
    the read override being unset or in range, so that the Resolver yields
    that write delay whenever the standard set is valid.  An override that
    is not positive is not set, and the validation passes it by. *)
Theorem debug_override_validation :
  forall cfg : Config,
    (override_set (RegisterDebugMagWriteDelay cfg) ->
     RegisterDebugMagWriteDelay cfg < 1 \/ 500 < RegisterDebugMagWriteDelay cfg ->
     snd (validateRegisterDebugMagConfig cfg) =
       Some (ErrDebugWriteDelayRange (RegisterDebugMagWriteDelay cfg)) /\
     is_config_error (resolve cfg)) /\
    (override_set (RegisterDebugMagReadDelay cfg) ->
     RegisterDebugMagReadDelay cfg < 1 \/ 100 < RegisterDebugMagReadDelay cfg ->
     snd (validateRegisterDebugMagConfig cfg) <> None /\
     is_config_error (resolve cfg)) /\
    (1 <= RegisterDebugMagWriteDelay cfg < 50 ->
     RegisterDebugMagUnsafeMode cfg = false ->
     snd (validateRegisterDebugMagConfig cfg) = Some ErrDebugWriteDelayUnsafe /\
     is_config_error (resolve cfg)) /\
    (1 <= RegisterDebugMagWriteDelay cfg < 50 ->
     RegisterDebugMagUnsafeMode cfg = true ->
     ~ override_set (RegisterDebugMagReadDelay cfg) \/
       1 <= RegisterDebugMagReadDelay cfg <= 100 ->
     snd (validateRegisterDebugMagConfig cfg) = None /\
     (snd (validateMagConfig cfg) = None ->
      exists p, snd (resolve cfg) = inr p /\
                writeDelay p = RegisterDebugMagWriteDelay cfg * Millisecond)) /\
    (~ override_set (RegisterDebugMagWriteDelay cfg) ->
     ~ override_set (RegisterDebugMagReadDelay cfg) ->
     snd (validateRegisterDebugMagConfig cfg) = None).
Proof.
  intros cfg.
  pose proof (validateRegisterDebugMagConfig_no_override cfg) as Hunset.
  unfold override_set in *.
  repeat split; [| | | | | | | | exact Hunset].
  - unfold validateRegisterDebugMagConfig.
    destruct (Z.gtb_spec (RegisterDebugMagWriteDelay cfg) 0); [| lia].
    destruct (Z.ltb_spec (RegisterDebugMagWriteDelay cfg) 1); [lia |].
    destruct (Z.gtb_spec (RegisterDebugMagWriteDelay cfg) 500); [| lia].
    reflexivity.
  - apply resolve_error_iff. right.
    unfold validateRegisterDebugMagConfig.
    destruct (Z.gtb_spec (RegisterDebugMagWriteDelay cfg) 0); [| lia].
    destruct (Z.ltb_spec (RegisterDebugMagWriteDelay cfg) 1); [lia |].
    destruct (Z.gtb_spec (RegisterDebugMagWriteDelay cfg) 500); [| lia].
    discriminate.
  - unfold validateRegisterDebugMagConfig.
    destruct (_ >? 0); [destruct (_ || _); [discriminate |];
                        destruct (_ && _); [discriminate |] |];
      (destruct (Z.gtb_spec (RegisterDebugMagReadDelay cfg) 0); [| lia];
       destruct (Z.ltb_spec (RegisterDebugMagReadDelay cfg) 1); [lia |];
       destruct (Z.gtb_spec (RegisterDebugMagReadDelay cfg) 100); [| lia];
       discriminate).
  - apply resolve_error_iff. right.
    unfold validateRegisterDebugMagConfig.
    destruct (_ >? 0); [destruct (_ || _); [discriminate |];
                        destruct (_ && _); [discriminate |] |];
      (destruct (Z.gtb_spec (RegisterDebugMagReadDelay cfg) 0); [| lia];
       destruct (Z.ltb_spec (RegisterDebugMagReadDelay cfg) 1); [lia |];
       destruct (Z.gtb_spec (RegisterDebugMagReadDelay cfg) 100); [| lia];
       discriminate).
  - unfold validateRegisterDebugMagConfig.
    destruct (Z.gtb_spec (RegisterDebugMagWriteDelay cfg) 0); [| lia].
    destruct (Z.ltb_spec (RegisterDebugMagWriteDelay cfg) 1); [lia |].
    destruct (Z.gtb_spec (RegisterDebugMagWriteDelay cfg) 500); [lia |].
    destruct (Z.ltb_spec (RegisterDebugMagWriteDelay cfg) 50); [| lia].
    match goal with H : _ = false |- _ => rewrite H end. reflexivity.
  - apply resolve_error_iff. right.
    unfold validateRegisterDebugMagConfig.
    destruct (Z.gtb_spec (RegisterDebugMagWriteDelay cfg) 0); [| lia].
    destruct (Z.ltb_spec (RegisterDebugMagWriteDelay cfg) 1); [lia |].
    destruct (Z.gtb_spec (RegisterDebugMagWriteDelay cfg) 500); [lia |].
    destruct (Z.ltb_spec (RegisterDebugMagWriteDelay cfg) 50); [| lia].
    match goal with H : _ = false |- _ => rewrite H end. discriminate.
  - unfold validateRegisterDebugMagConfig.
    destruct (Z.gtb_spec (RegisterDebugMagWriteDelay cfg) 0); [| lia].
    destruct (Z.ltb_spec (RegisterDebugMagWriteDelay cfg) 1); [lia |].
    destruct (Z.gtb_spec (RegisterDebugMagWriteDelay cfg) 500); [lia |].
    match goal with H : _ = true |- _ => rewrite H end.
    rewrite andb_false_r. cbn [orb].
    destruct (Z.gtb_spec (RegisterDebugMagReadDelay cfg) 0); [| reflexivity].
    destruct (Z.ltb_spec (RegisterDebugMagReadDelay cfg) 1); [lia |].
    destruct (Z.gtb_spec (RegisterDebugMagReadDelay cfg) 100); [lia |].
    reflexivity.
  - intros Hstd. eexists. split.
    + apply resolve_ok; [exact Hstd |].
      unfold validateRegisterDebugMagConfig.
      destruct (Z.gtb_spec (RegisterDebugMagWriteDelay cfg) 0); [| lia].
      destruct (Z.ltb_spec (RegisterDebugMagWriteDelay cfg) 1); [lia |].
      destruct (Z.gtb_spec (RegisterDebugMagWriteDelay cfg) 500); [lia |].
      match goal with H : _ = true |- _ => rewrite H end.
      rewrite andb_false_r. cbn [orb].
      destruct (Z.gtb_spec (RegisterDebugMagReadDelay cfg) 0); [| reflexivity].
      destruct (Z.ltb_spec (RegisterDebugMagReadDelay cfg) 1); [lia |].
      destruct (Z.gtb_spec (RegisterDebugMagReadDelay cfg) 100); [lia |].
      reflexivity.
    + cbn [writeDelay]. unfold override_setb.
      destruct (Z.gtb_spec (RegisterDebugMagWriteDelay cfg) 0); [| lia].
      reflexivity.
Qed.

Lemma debug_override_validation_witness :
  snd (validateRegisterDebugMagConfig (mkConfig 50 2 1 0x06 1 10 (-1) false))
    = Some ErrDebugWriteDelayUnsafe /\
  snd (validateRegisterDebugMagConfig (mkConfig 50 2 1 0x06 1 10 (-1) true))
    = None.
Proof.
  split.
  - destruct (debug_override_validation (mkConfig 50 2 1 0x06 1 10 (-1) false))
      as [_ [_ [H _]]].
    apply H; [cbn; lia | reflexivity].
  - destruct (debug_override_validation (mkConfig 50 2 1 0x06 1 10 (-1) true))
      as [_ [_ [_ [H _]]]].
    apply H; [cbn; lia | reflexivity | left; unfold override_set; cbn; lia].
Defined.

(** ** Calibration *)

Lemma all_from_spec (p : Z -> bool) n :
  forall lo, all_from lo n p = true ->
             forall c, lo <= c < lo + Z.of_nat n -> p c = true.
Proof.
  induction n as [| n IH]; intros lo H c Hc.
  - cbn in Hc. lia.
  - cbn [all_from] in H. apply andb_prop in H. destruct H as [H1 H2].
    destruct (Z.eq_dec c lo) as [-> | Hne]; [exact H1 |].
    apply (IH (lo + 1)); [exact H2 | lia].
Qed.

Lemma adjustment_check_all : all_from 0 256 adjustment_check = true.
Proof. vm_compute. reflexivity. Qed.

(** C2.  For every trim byte [t] in [0, 255] the adjustment computed in
    [float64] is exactly the rational [(t - 128) / 256 + 1], and lies in
    [0.5, 1.49609375] (that is 383/256); trim byte 128 gives 1.0, trim byte
    0 gives 0.5 and trim byte 255 gives 1.49609375. *)
Theorem adjustment_formula :
  (forall t : Z,
      is_byte t ->
      exists q : Q,
        Q_of_float64 (adjustment t) = Some q /\
        (q == (inject_Z t - 128) / 256 + 1)%Q /\
        (1 # 2 <= q)%Q /\ (q <= 383 # 256)%Q) /\
  adjustment 128 = 1%float /\
  adjustment 0 = 0.5%float /\
  adjustment 255 = 1.49609375%float.
Proof.
  split; [| repeat split; vm_compute; reflexivity].
  intros t Ht. unfold is_byte in Ht.
  pose proof (all_from_spec adjustment_check 256 0 adjustment_check_all t
                ltac:(cbn; lia)) as Hc.
  unfold adjustment_check in Hc.
  destruct (Q_of_float64 (adjustment t)) as [q |]; [| discriminate].
  apply andb_prop in Hc. destruct Hc as [Hc Hhi].
  apply andb_prop in Hc. destruct Hc as [Heq Hlo].
  exists q. split; [reflexivity |]. split; [| split].
  - apply Qeq_bool_iff in Heq. exact Heq.
  - apply Qle_bool_iff. exact Hlo.
  - apply Qle_bool_iff. exact Hhi.
Qed.

Lemma adjustment_formula_witness :
  exists q : Q,
    Q_of_float64 (adjustment 200) = Some q /\
    (q == (inject_Z 200 - 128) / 256 + 1)%Q /\
    (1 # 2 <= q)%Q /\ (q <= 383 # 256)%Q.
Proof.
  destruct adjustment_formula as [H _].
  apply (H 200). unfold is_byte. lia.
Defined.

(** The result of [initialize] after a run that reached [Ready]: the
    adjustments of the trim bytes read at step 4. *)
Lemma initialize_ready :
  forall (TS TransportError : Type)
         (write : Reg -> Z -> TS -> TS * option TransportError)
         (readBlock : Reg -> nat -> TS -> TS * (TransportError + list Z))
         (p : EffectiveParameters) (ts : TS),
    state (fullRun write readBlock p ts) = Ready ->
    snd (initialize write readBlock p ts) =
      Some (inr (calibrationOf (trim (fullRun write readBlock p ts)))).
Proof.
  intros TS TransportError write readBlock p ts H.
  unfold initialize. cbn [snd]. rewrite H. reflexivity.
Qed.

(** Scenario A of the specification: mode 0x06, scale 1, 50 ms and 2 ms,
    trim bytes 128, 128, 128: the sequencer reaches [Ready] with
    adjustments 1.0, 1.0, 1.0. *)
Example scenario_A :
  let r := initialize (mockWrite None) (mockReadBlock None [128; 128; 128])
             standardParams 0%nat in
  state (fst r) = Ready /\
  snd r = Some (inr (mkCal 1%float 1%float 1%float)) /\
  transport (fst r) = 7%nat.
Proof. vm_compute. repeat split. Qed.

(** Scenario B of the specification: the transport fails at the [FuseMode]
    write (its third call); [initialize] returns the error tagged
    [FuseMode], and a fresh run with a transport that succeeds reaches
    [Ready]. *)
Example scenario_B :
  let r := initialize (mockWrite (Some 2%nat))
             (mockReadBlock (Some 2%nat) [128; 128; 128]) standardParams 0%nat in
  state (fst r) = Failed /\
  snd r = Some (inl (mkInitError FuseMode tt)) /\
  map fst (trace (fst r)) = [Reset; Reset; PowerDown1; PowerDown1; FuseMode] /\
  state (fullRun (mockWrite None) (mockReadBlock None [128; 128; 128])
           standardParams 0%nat) = Ready.
Proof. vm_compute. repeat split. Qed.

(** ** Scaling *)

Lemma gain_constant_listed l : gain_constant l -> In l gainConstants.
Proof.
  unfold gain_constant, gainXY, gainZ, gainConstants. cbn [In].
  intros [H | H];
    repeat (destruct H as [<- | H]; [tauto |]); contradiction.
Qed.

Lemma gain_constant_positive l : gain_constant l -> 205 <= l <= 1370.
Proof.
  intros H. apply gain_constant_listed in H.
  unfold gainConstants in H. cbn [In] in H.
  repeat (destruct H as [<- | H]; [lia |]). contradiction.
Qed.

(** The whole range of [int16], against every gain constant. *)
Lemma scaling_check_all :
  forallb (fun l => all_from (-32768) (Z.to_nat 65536) (scaling_check l))
          gainConstants = true.
Proof. vm_compute. reflexivity. Qed.

Lemma scaling_check_holds c l :
  in_int16 c -> gain_constant l -> scaling_check l c = true.
Proof.
  intros Hc Hl. apply gain_constant_listed in Hl.
  pose proof scaling_check_all as Hall.
  rewrite forallb_forall in Hall. specialize (Hall l Hl).
  apply (all_from_spec _ _ _ Hall).
  unfold in_int16 in Hc. rewrite Z2Nat.id by lia. lia.
Qed.

(** [Sense] scales each raw count as [CountsToMicroTesla10] does, X and Y
    with [lsbPerGaXY], Z with [lsbPerGaZ]. *)
Lemma Sense_scales :
  forall (BusSt BusErr : Type)
         (Tx : Z -> list Z -> nat -> BusSt -> BusSt * (BusErr + list Z))
         (d : Dev) (w w' : World BusSt) (rx ry rz : Z),
    SenseRaw Tx d w = (w', inr (rx, ry, rz)) ->
    Sense Tx d w =
      (w', inr (CountsToMicroTesla10 rx (lsbPerGaXY d),
                CountsToMicroTesla10 ry (lsbPerGaXY d),
                CountsToMicroTesla10 rz (lsbPerGaZ d))).
Proof.
  intros BusSt BusErr Tx d w w' rx ry rz H.
  unfold Sense, bind. rewrite H. reflexivity.
Qed.

(** C7, as amended.  For every raw count of the signed 16-bit range and
    every gain constant of the tables, the [float64] product computed
    before narrowing is finite; its integer part [t] is within one of the
    exact value [counts * 1000 / lsbPerGauss] and not larger in magnitude;
    and the [int16] returned is [t] whenever [t] fits [int16], in particular
    whenever the exact value is at most 32767 in magnitude. *)
Theorem scaling_before_narrowing :
  forall c l : Z,
    in_int16 c -> gain_constant l ->
    exists t : Z,
      trunc_float64 (scaled_float64 c l) = Some t /\
      Z.abs (t * l - c * 1000) <= l /\
      Z.abs t * l <= Z.abs c * 1000 /\
      (in_int16 t -> CountsToMicroTesla10 c l = t) /\
      (Z.abs c * 1000 <= 32767 * l -> CountsToMicroTesla10 c l = t).
Proof.
  intros c l Hc Hl.
  pose proof (scaling_check_holds c l Hc Hl) as Hchk.
  pose proof (gain_constant_positive l Hl) as Hpos.
  unfold scaling_check in Hchk.
  destruct (trunc_float64 (scaled_float64 c l)) as [t |] eqn:Et;
    [| discriminate].
  apply andb_prop in Hchk. destruct Hchk as [H1 H2].
  apply Z.leb_le in H1. apply Z.leb_le in H2.
  assert (Hfit : in_int16 t -> CountsToMicroTesla10 c l = t).
  { intros Ht. unfold CountsToMicroTesla10, int16_of_float64.
    fold (scaled_float64 c l). rewrite Et. apply int16_small. exact Ht. }
  exists t. repeat split; try assumption.
  intros Hex. apply Hfit. unfold in_int16. nia.
Qed.

Lemma scaling_before_narrowing_witness :
  exists t : Z,
    trunc_float64 (scaled_float64 2047 230) = Some t /\
    Z.abs (t * 230 - 2047 * 1000) <= 230 /\
    Z.abs t * 230 <= Z.abs 2047 * 1000 /\
    (in_int16 t -> CountsToMicroTesla10 2047 230 = t) /\
    (Z.abs 2047 * 1000 <= 32767 * 230 -> CountsToMicroTesla10 2047 230 = t).
Proof.
  apply (scaling_before_narrowing 2047 230).
  - unfold in_int16. lia.
  - left. unfold gainXY. cbn. tauto.
Defined.

(** C7, the claim as stated fails.  With gain constant 400 a count of 402
    has the exact value 1005 and is scaled to 1004; with gain constant 230
    a count of 32767 has an integer part of 142465, which no [int16] holds
    (the model returns its low 16 bits, 11393).  So the narrowed output is
    not in general the exact value rounded, or saturated, into range. *)
Lemma scaling_is_not_exact :
  CountsToMicroTesla10 402 400 = 1004 /\
  402 * 1000 = 1005 * 400 /\
  trunc_float64 (scaled_float64 32767 230) = Some 142465 /\
  ~ in_int16 142465 /\
  CountsToMicroTesla10 32767 230 = 11393 /\
  ~ (forall c l : Z,
        in_int16 c -> gain_constant l ->
        exists q : Z,
          Z.abs (q * l - c * 1000) < l /\
          CountsToMicroTesla10 c l = clamp16 q).
Proof.
  assert (E : CountsToMicroTesla10 402 400 = 1004) by (vm_compute; reflexivity).
  repeat split; try (vm_compute; reflexivity).
  - unfold in_int16. lia.
  - intros H.
    destruct (H 402 400) as [q [Hq Hr]].
    + unfold in_int16. lia.
    + right. unfold gainZ. cbn. tauto.
    + rewrite E in Hr. unfold clamp16 in Hr. lia.
Qed.

(** C8.  A raw count of 0 is scaled to 0 with every gain constant; [Sense],
    on a device made by [New], returns 0 on every axis whose raw count is
    0; and the scaling formula of the specification gives 0 for a raw count
    of 0 with every calibration value and every gain constant. *)
Theorem zero_count_scales_to_zero :
  (forall l : Z, gain_constant l -> CountsToMicroTesla10 0 l = 0) /\
  (forall (BusSt BusErr : Type)
          (Tx : Z -> list Z -> nat -> BusSt -> BusSt * (BusErr + list Z))
          (opts : Opts) (w0 w1 w w' : World BusSt) (d : Dev) (rx ry rz : Z),
      New Tx opts w0 = (w1, inr d) ->
      SenseRaw Tx d w = (w', inr (rx, ry, rz)) ->
      exists ux uy uz : Z,
        Sense Tx d w = (w', inr (ux, uy, uz)) /\
        (rx = 0 -> ux = 0) /\ (ry = 0 -> uy = 0) /\ (rz = 0 -> uz = 0)) /\
  (forall calibrationAxis gainConstant : Q,
      (scaledAxis 0 calibrationAxis gainConstant == 0)%Q).
Proof.
  assert (Hzero : forall l, gain_constant l -> CountsToMicroTesla10 0 l = 0).
  { intros l Hl. apply gain_constant_listed in Hl.
    unfold gainConstants in Hl. cbn [In] in Hl.
    repeat (destruct Hl as [<- | Hl]; [vm_compute; reflexivity |]).
    contradiction. }
  split; [exact Hzero | split].
  - intros BusSt BusErr Tx opts w0 w1 w w' d rx ry rz HNew Hraw.
    destruct (New_gain_constants Tx opts w0 w1 d HNew) as [Hxy Hz].
    rewrite (Sense_scales _ _ Tx d w w' rx ry rz Hraw).
    eexists. eexists. eexists. split; [reflexivity |].
    repeat split; intros ->; apply Hzero;
      [left; exact Hxy | left; exact Hxy | right; exact Hz].
  - intros cal g. unfold scaledAxis. ring.
Qed.

Lemma zero_count_scales_to_zero_witness :
  exists ux uy uz : Z,
    Sense (mockTx [0; 0; 0; 0; 0; 0]) (mkDev 0x1E 440 400) (mkWorld [] []) =
      (mkWorld [(0x1E, [regDATA])] [], inr (ux, uy, uz)) /\
    (0 = 0 -> ux = 0) /\ (0 = 0 -> uy = 0) /\ (0 = 0 -> uz = 0).
Proof.
  destruct zero_count_scales_to_zero as [_ [H _]].
  apply (H _ _ (mockTx [0; 0; 0; 0; 0; 0]) (mkOpts 15 1 4 "continuous" 0)
           (mkWorld [] [])
           (mkWorld [(0x1E, [regCRA; 0x0C]); (0x1E, [regCRB; 0x80]);
                     (0x1E, [regMODE; 0x00])] [10 * Millisecond])).
  - reflexivity.
  - vm_compute. reflexivity.
Defined.

(** * Further properties of the code *)

(** ** HMC5983: bus transactions of the driver *)

Section HMC5983_transactions.

Context {BusSt BusErr : Type}.
Variable Tx : Z -> list Z -> nat -> BusSt -> BusSt * (BusErr + list Z).

(** A read of a non-empty block, in terms of the one transaction it makes. *)
Lemma readRegBlock_transaction d addr n w :
  n <> 0%nat ->
  readRegBlock Tx d addr n w =
    (mkWorld (fst (Tx (dev_addr d) [addr] n (bus w))) (slept w),
     match snd (Tx (dev_addr d) [addr] n (bus w)) with
     | inl e => inl (TxError e)
     | inr rd => inr (HMC5983.fill n rd)
     end).
Proof.
  intros Hn. unfold readRegBlock.
  destruct (Nat.eqb_spec n 0) as [E | _]; [contradiction |].
  unfold devTx. destruct (Tx (dev_addr d) [addr] n (bus w)) as [b' [e | rd]];
    reflexivity.
Qed.

(** A register write, in terms of the one transaction it makes. *)
Lemma writeReg_transaction d addr val w :
  writeReg Tx d addr val w =
    (mkWorld (fst (Tx (dev_addr d) [addr; val] 0%nat (bus w))) (slept w),
     match snd (Tx (dev_addr d) [addr; val] 0%nat (bus w)) with
     | inl e => inl (TxError e)
     | inr _ => inr tt
     end).
Proof.
  unfold writeReg, bind, devTx, ret.
  destruct (Tx (dev_addr d) [addr; val] 0%nat (bus w)) as [b' [e | rd]];
    reflexivity.
Qed.

End HMC5983_transactions.

(** X1.  Each of [SenseRaw], [Sense], [Status] and [ID] makes exactly one bus
    transaction, a read of 6, 6, 1 and 3 bytes from [regDATA], [regDATA],
    [regSTATUS] and [regIDA] at the address of the device, and never
    sleeps: the bus afterwards is the bus after that one transaction. *)
Theorem reads_make_one_transaction :
  forall (BusSt BusErr : Type)
         (Tx : Z -> list Z -> nat -> BusSt -> BusSt * (BusErr + list Z))
         (d : Dev) (w : World BusSt),
    fst (SenseRaw Tx d w) =
      mkWorld (fst (Tx (dev_addr d) [regDATA] 6%nat (bus w))) (slept w) /\
    fst (Sense Tx d w) =
      mkWorld (fst (Tx (dev_addr d) [regDATA] 6%nat (bus w))) (slept w) /\
    fst (Status Tx d w) =
      mkWorld (fst (Tx (dev_addr d) [regSTATUS] 1%nat (bus w))) (slept w) /\
    fst (ID Tx d w) =
      mkWorld (fst (Tx (dev_addr d) [regIDA] 3%nat (bus w))) (slept w).
Proof.
  intros BusSt BusErr Tx d w.
  unfold Sense, SenseRaw, Status, ID, bind.
  rewrite !(readRegBlock_transaction Tx) by discriminate.
  repeat split;
    match goal with
    | |- context [snd (Tx ?a ?b ?c ?s)] =>
        destruct (snd (Tx a b c s)); reflexivity
    end.
Qed.

(** X2.  A read method fails exactly when its bus transaction fails, and
    then with the error of the bus: the empty-buffer error of
    [readRegBlock] never comes out of [SenseRaw], [Sense], [Status] or
    [ID]. *)
Theorem reads_fail_with_the_bus :
  forall (BusSt BusErr : Type)
         (Tx : Z -> list Z -> nat -> BusSt -> BusSt * (BusErr + list Z))
         (d : Dev) (w : World BusSt) (e : error BusErr),
    (snd (SenseRaw Tx d w) = inl e <->
     exists be, e = TxError be /\
                snd (Tx (dev_addr d) [regDATA] 6%nat (bus w)) = inl be) /\
    (snd (Sense Tx d w) = inl e <->
     exists be, e = TxError be /\
                snd (Tx (dev_addr d) [regDATA] 6%nat (bus w)) = inl be) /\
    (snd (Status Tx d w) = inl e <->
     exists be, e = TxError be /\
                snd (Tx (dev_addr d) [regSTATUS] 1%nat (bus w)) = inl be) /\
    (snd (ID Tx d w) = inl e <->
     exists be, e = TxError be /\
                snd (Tx (dev_addr d) [regIDA] 3%nat (bus w)) = inl be).
Proof.
  intros BusSt BusErr Tx d w e.
  unfold Sense, SenseRaw, Status, ID, bind.
  rewrite !(readRegBlock_transaction Tx) by discriminate.
  repeat split;
    match goal with
    | |- context [snd (Tx ?a ?b ?c ?s)] =>
        destruct (snd (Tx a b c s)) as [be | rd]; cbn
    end;
    try (intros H; inversion H; subst; eexists; split; reflexivity);
    try (intros [be' [-> H]]; congruence);
    try discriminate.
Qed.

(** X3.  [New] stops at the first register write that fails: it returns the
    error of the bus, makes no further transaction and does not sleep.
    When the three writes succeed it sleeps 10 ms, once, and returns the
    device. *)
Theorem New_stops_at_first_failure :
  forall (BusSt BusErr : Type)
         (Tx : Z -> list Z -> nat -> BusSt -> BusSt * (BusErr + list Z))
         (opts : Opts) (w w' : World BusSt),
    (forall e, New Tx opts w = (w', inl e) ->
       slept w' = slept w /\
       exists be, e = TxError be /\
         ((exists cra, Tx (effectiveAddr opts) [regCRA; cra] 0%nat (bus w)
                       = (bus w', inl be)) \/
          (exists cra b1 r1 crb,
              Tx (effectiveAddr opts) [regCRA; cra] 0%nat (bus w) = (b1, inr r1) /\
              Tx (effectiveAddr opts) [regCRB; crb] 0%nat b1 = (bus w', inl be)) \/
          (exists cra b1 r1 crb b2 r2 mode,
              Tx (effectiveAddr opts) [regCRA; cra] 0%nat (bus w) = (b1, inr r1) /\
              Tx (effectiveAddr opts) [regCRB; crb] 0%nat b1 = (b2, inr r2) /\
              Tx (effectiveAddr opts) [regMODE; mode] 0%nat b2 = (bus w', inl be)))) /\
    (forall d, New Tx opts w = (w', inr d) ->
       slept w' = slept w ++ [10 * Millisecond] /\
       dev_addr d = effectiveAddr opts).
Proof.
  intros BusSt BusErr Tx opts w w'.
  unfold New, bind, writeReg, bind, devTx, sleep, ret.
  fold (effectiveAddr opts). cbn [dev_addr].
  split.
  - intros e.
    destruct (Tx (effectiveAddr opts) _ 0%nat (bus w)) as [b1 [e1 | r1]] eqn:E1;
      cbn [bus slept].
    { intros H. inversion H; subst. cbn. split; [reflexivity |].
      eexists. split; [reflexivity |]. left. eexists. exact E1. }
    destruct (Tx (effectiveAddr opts) (regCRB :: _) 0%nat b1) as [b2 [e2 | r2]] eqn:E2;
      cbn [bus slept].
    { intros H. inversion H; subst. cbn. split; [reflexivity |].
      eexists. split; [reflexivity |]. right. left.
      do 4 eexists. split; [exact E1 | exact E2]. }
    destruct (Tx (effectiveAddr opts) (regMODE :: _) 0%nat b2) as [b3 [e3 | r3]] eqn:E3;
      cbn [bus slept].
    { intros H. inversion H; subst. cbn. split; [reflexivity |].
      eexists. split; [reflexivity |]. right. right.
      do 7 eexists. split; [exact E1 | split; [exact E2 | exact E3]]. }
    discriminate.
  - intros d.
    repeat match goal with
           | |- context [Tx ?a ?b ?c ?s] =>
               destruct (Tx a b c s) as [? [? | ?]]; cbn [bus slept];
               try discriminate
           end.
    intros H. inversion H; subst. cbn. split; reflexivity.
Qed.

(** ** HMC5983: what [New] writes *)

Lemma New_programs :
  forall (BusSt BusErr : Type)
         (Tx : Z -> list Z -> nat -> BusSt -> BusSt * (BusErr + list Z))
         (opts : Opts),
    New Tx opts =
      programDevice Tx (effectiveAddr opts) (effectiveGainCode opts)
        (craOf opts) (modeOf opts).
Proof. reflexivity. Qed.

(** Case analysis on a positive number, [n] binary digits deep. *)
Ltac deep_pos p n :=
  lazymatch n with
  | O => idtac
  | S ?k => destruct p as [p | p |]; [deep_pos p k | deep_pos p k | idtac]
  end.

Lemma avgBits_cases a :
  (avgBits 0 a = 32 * 3 /\ a = 8) \/ (avgBits 0 a = 32 * 2 /\ a = 4) \/
  (avgBits 0 a = 32 * 1 /\ a = 2) \/
  (avgBits 0 a = 0 /\ ~ In a [8; 4; 2]).
Proof.
  destruct a as [| p | p];
    [right; right; right; cbn; intuition lia | |
     right; right; right; cbn; intuition lia].
  deep_pos p 4%nat;
    first [ left; split; reflexivity
          | right; left; split; reflexivity
          | right; right; left; split; reflexivity
          | right; right; right; split; [reflexivity | cbn; intuition lia] ].
Qed.

Lemma odrBits_cases c r :
  In c [0; 32; 64; 96] ->
  (odrBits c r = c + 4 * 6 /\ r = 75) \/ (odrBits c r = c + 4 * 4 /\ r = 30) \/
  (odrBits c r = c + 4 * 3 /\ r = 15) \/ (odrBits c r = c + 4 * 2 /\ r = 7) \/
  (odrBits c r = c + 4 * 1 /\ r = 3) \/
  (odrBits c r = c + 4 * 3 /\ ~ In r [75; 30; 15; 7; 3]).
Proof.
  intros Hc.
  assert (Hdef : or8 c (Z.shiftl 3 2) = c + 4 * 3)
    by (cbn [In] in Hc; intuition (subst; reflexivity)).
  destruct r as [| p | p];
    [do 5 right; split; [exact Hdef | cbn; intuition lia] | |
     do 5 right; split; [exact Hdef | cbn; intuition lia]].
  deep_pos p 7%nat;
    first [ do 5 right; split; [exact Hdef | cbn; intuition lia]
          | cbn [In] in Hc;
            first [ left; split; [intuition (subst; reflexivity) | reflexivity]
                  | right; left; split; [intuition (subst; reflexivity) | reflexivity]
                  | do 2 right; left; split; [intuition (subst; reflexivity) | reflexivity]
                  | do 3 right; left; split; [intuition (subst; reflexivity) | reflexivity]
                  | do 4 right; left; split; [intuition (subst; reflexivity) | reflexivity] ] ].
Qed.

Lemma crb_of_gain_code opts :
  shl8 (byte (effectiveGainCode opts)) 5 = 32 * effectiveGainCode opts.
Proof.
  pose proof (effectiveGainCode_range opts) as H.
  assert (Hc : In (effectiveGainCode opts) [0; 1; 2; 3; 4; 5; 6; 7])
    by (cbn; lia).
  cbn [In] in Hc.
  repeat (destruct Hc as [<- | Hc]; [reflexivity |]). contradiction.
Qed.

(** X4.  Whatever the options, [New] on a bus that accepts every write
    sends exactly three transactions, to CRA, CRB and MODE in this order and
    all to the address of the device, then sleeps 10 ms once.  The CRA byte
    is [32 * avg + 4 * odr] with [avg] in 0..3 and [odr] in 1, 2, 3, 4, 6: bit
    7 and the bias bits 1..0 are clear.  The CRB byte is the gain code
    shifted by 5, and the MODE byte is 1 for the mode ["single"] and 0
    otherwise. *)
Theorem New_register_bytes :
  forall (opts : Opts) (block : list Z) (log0 : list (Z * list Z))
         (sl : list Z),
  exists avg odr : Z,
    In avg [0; 1; 2; 3] /\ In odr [1; 2; 3; 4; 6] /\
    New (mockTx block) opts (mkWorld log0 sl) =
      (mkWorld
         (log0 ++
          [ (effectiveAddr opts, [regCRA; 32 * avg + 4 * odr]);
            (effectiveAddr opts, [regCRB; 32 * effectiveGainCode opts]);
            (effectiveAddr opts,
             [regMODE; if String.eqb (Mode opts) "single" then 1 else 0]) ])
         (sl ++ [10 * Millisecond]),
       inr (mkDev (effectiveAddr opts)
              (nth (Z.to_nat (effectiveGainCode opts)) gainXY 0)
              (nth (Z.to_nat (effectiveGainCode opts)) gainZ 0))).
Proof.
  intros opts block log0 sl.
  assert (Hcra : exists avg odr,
             In avg [0; 1; 2; 3] /\ In odr [1; 2; 3; 4; 6] /\
             craOf opts = 32 * avg + 4 * odr).
  { unfold craOf.
    destruct (avgBits_cases (AvgSamples opts))
      as [[Ea _] | [[Ea _] | [[Ea _] | [Ea _]]]];
      rewrite Ea;
      match goal with
      | |- context [odrBits ?c ?r] =>
          destruct (odrBits_cases c r ltac:(cbn; tauto))
            as [[Eo _] | [[Eo _] | [[Eo _] | [[Eo _] | [[Eo _] | [Eo _]]]]]];
          rewrite Eo
      end;
      match goal with
      | |- exists avg odr, _ /\ _ /\ 32 * ?a + 4 * ?o = _ =>
          exists a, o; cbn; intuition lia
      | |- exists avg odr, _ /\ _ /\ 0 + 4 * ?o = _ =>
          exists 0, o; cbn; intuition lia
      end. }
  destruct Hcra as (avg & odr & Havg & Hodr & Hcra).
  exists avg, odr. split; [exact Havg |]. split; [exact Hodr |].
  rewrite New_programs. unfold programDevice.
  rewrite crb_of_gain_code, Hcra.
  unfold bind, writeReg, bind, devTx, mockTx, sleep, ret, modeOf.
  cbn [bus slept dev_addr fst snd].
  rewrite <- !app_assoc. reflexivity.
Qed.

(** X5.  Options [New] does not know fall back silently: an output data
    rate other than 75, 30, 15, 7, 3 behaves as 15, an averaging other than
    8, 4, 2 behaves as 1 (no averaging), and a mode other than ["single"]
    behaves as ["continuous"]. *)
Theorem New_unknown_options_fall_back :
  forall (BusSt BusErr : Type)
         (Tx : Z -> list Z -> nat -> BusSt -> BusSt * (BusErr + list Z))
         (opts : Opts),
    (~ In (ODRHz opts) [75; 30; 15; 7; 3] ->
     New Tx opts = New Tx (withODRHz 15 opts)) /\
    (~ In (AvgSamples opts) [8; 4; 2] ->
     New Tx opts = New Tx (withAvgSamples 1 opts)) /\
    (Mode opts <> "single"%string ->
     New Tx opts = New Tx (withMode "continuous" opts)).
Proof.
  intros BusSt BusErr Tx opts. rewrite !New_programs.
  split; [| split].
  - intros Hr. f_equal. unfold craOf. cbn [withODRHz AvgSamples ODRHz].
    destruct (avgBits_cases (AvgSamples opts))
      as [[Ea _] | [[Ea _] | [[Ea _] | [Ea _]]]];
      rewrite Ea;
      match goal with
      | |- odrBits ?c ?r = _ =>
          destruct (odrBits_cases c r ltac:(cbn; tauto))
            as [[_ E] | [[_ E] | [[_ E] | [[_ E] | [[_ E] | [Eo _]]]]]];
          try (exfalso; apply Hr; rewrite E; cbn; tauto);
          rewrite Eo; reflexivity
      end.
  - intros Ha. f_equal. unfold craOf. cbn [withAvgSamples AvgSamples ODRHz].
    destruct (avgBits_cases (AvgSamples opts))
      as [[_ E] | [[_ E] | [[_ E] | [Ea _]]]];
      try (exfalso; apply Ha; rewrite E; cbn; tauto).
    rewrite Ea. reflexivity.
  - intros Hm. f_equal. unfold modeOf. cbn [withMode Mode].
    destruct (String.eqb_spec (Mode opts) "single"); [contradiction |].
    reflexivity.
Qed.

Lemma New_unknown_options_fall_back_witness :
  New (mockTx []) (mkOpts 100 16 1 "Single" 0) =
  New (mockTx []) (mkOpts 15 16 1 "Single" 0).
Proof.
  destruct (New_unknown_options_fall_back _ _ (mockTx [])
              (mkOpts 100 16 1 "Single" 0)) as [H _].
  apply H. cbn. intuition lia.
Defined.

(** ** HMC5983: the wire format of the counts *)

Lemma wire_bytes v :
  in_int16 v ->
  is_byte (msb16 v) /\ is_byte (lsb16 v) /\ int16_be (msb16 v) (lsb16 v) = v.
Proof.
  unfold in_int16, is_byte, msb16, lsb16, int16_be. intros Hv.
  destruct (Z.ltb_spec (256 * (v mod 65536 / 256) + v mod 256) 32768);
    Z.to_euclidean_division_equations; lia.
Qed.

Lemma bytes_of_count hi lo :
  is_byte hi -> is_byte lo ->
  in_int16 (int16_be hi lo) /\
  msb16 (int16_be hi lo) = hi /\ lsb16 (int16_be hi lo) = lo.
Proof.
  unfold in_int16, is_byte, msb16, lsb16, int16_be. intros Hhi Hlo.
  destruct (Z.ltb_spec (256 * hi + lo) 32768);
    Z.to_euclidean_division_equations; lia.
Qed.

(** X6.  Round trip, counts to wire to counts: for all signed 16-bit counts
    X, Y, Z, when the device sends their block (X, Z, Y, each most
    significant byte first, two's complement), [SenseRaw] returns X, Y,
    Z. *)
Theorem SenseRaw_decodes_wire_block :
  forall (BusSt BusErr : Type)
         (Tx : Z -> list Z -> nat -> BusSt -> BusSt * (BusErr + list Z))
         (d : Dev) (w : World BusSt) (b' : BusSt) (x y z : Z),
    in_int16 x -> in_int16 y -> in_int16 z ->
    Tx (dev_addr d) [regDATA] 6%nat (bus w) = (b', inr (wireBlock x y z)) ->
    Forall is_byte (wireBlock x y z) /\
    SenseRaw Tx d w = (mkWorld b' (slept w), inr (x, y, z)).
Proof.
  intros BusSt BusErr Tx d w b' x y z Hx Hy Hz HTx.
  destruct (wire_bytes x Hx) as (Hx1 & Hx2 & Ex).
  destruct (wire_bytes y Hy) as (Hy1 & Hy2 & Ey).
  destruct (wire_bytes z Hz) as (Hz1 & Hz2 & Ez).
  split.
  { unfold wireBlock.
    repeat (apply Forall_cons; [assumption |]). apply Forall_nil. }
  unfold SenseRaw, bind.
  rewrite (readRegBlock_ok Tx d regDATA 6 w b' _ ltac:(discriminate) HTx).
  unfold wireBlock.
  cbn [HMC5983.fill firstn app repeat at_index nth ret].
  rewrite !join_bytes by assumption. rewrite Ex, Ey, Ez. reflexivity.
Qed.

Lemma SenseRaw_decodes_wire_block_witness :
  SenseRaw (mockTx (wireBlock (-2048) 2047 (-4096)))
    (mkDev DefaultAddr 1090 980) (mkWorld [] []) =
  (mkWorld [(DefaultAddr, [regDATA])] [], inr (-2048, 2047, -4096)).
Proof.
  apply (SenseRaw_decodes_wire_block _ _
           (mockTx (wireBlock (-2048) 2047 (-4096)))
           (mkDev DefaultAddr 1090 980) (mkWorld [] [])
           [(DefaultAddr, [regDATA])] (-2048) 2047 (-4096));
    try (unfold in_int16; lia).
  reflexivity.
Defined.

(** X7.  Round trip, wire to counts to wire: [SenseRaw] loses nothing.  The
    counts it returns for a block of six bytes are signed 16-bit values, and
    encoding them gives the block back; two different blocks never give the
    same counts. *)
Theorem SenseRaw_is_injective :
  forall (BusSt BusErr : Type)
         (Tx : Z -> list Z -> nat -> BusSt -> BusSt * (BusErr + list Z))
         (d : Dev) (w w' : World BusSt) (b' : BusSt)
         (b0 b1 b2 b3 b4 b5 x y z : Z),
    Forall is_byte [b0; b1; b2; b3; b4; b5] ->
    Tx (dev_addr d) [regDATA] 6%nat (bus w) = (b', inr [b0; b1; b2; b3; b4; b5]) ->
    SenseRaw Tx d w = (w', inr (x, y, z)) ->
    in_int16 x /\ in_int16 y /\ in_int16 z /\
    wireBlock x y z = [b0; b1; b2; b3; b4; b5].
Proof.
  intros BusSt BusErr Tx d w w' b' b0 b1 b2 b3 b4 b5 x y z Hbytes HTx.
  repeat match goal with
         | H : Forall _ (_ :: _) |- _ => inversion H; subst; clear H
         end.
  unfold SenseRaw, bind.
  rewrite (readRegBlock_ok Tx d regDATA 6 w b' _ ltac:(discriminate) HTx).
  cbn [HMC5983.fill firstn app repeat at_index nth ret].
  rewrite !join_bytes by assumption.
  intros H. inversion H; subst.
  destruct (bytes_of_count b0 b1) as (? & E0 & E1); try assumption.
  destruct (bytes_of_count b2 b3) as (? & E2 & E3); try assumption.
  destruct (bytes_of_count b4 b5) as (? & E4 & E5); try assumption.
  unfold wireBlock. rewrite E0, E1, E2, E3, E4, E5.
  split; [assumption | split; [assumption | split; [assumption | reflexivity]]].
Qed.

Lemma SenseRaw_is_injective_witness :
  wireBlock 4660 (-32768) (-2) = [0x12; 0x34; 0xFF; 0xFE; 0x80; 0x00].
Proof.
  apply (SenseRaw_is_injective _ _
           (mockTx [0x12; 0x34; 0xFF; 0xFE; 0x80; 0x00])
           (mkDev DefaultAddr 1090 980) (mkWorld [] [])
           (mkWorld [(DefaultAddr, [regDATA])] [])
           [(DefaultAddr, [regDATA])] 0x12 0x34 0xFF 0xFE 0x80 0x00
           4660 (-32768) (-2)).
  - repeat constructor; unfold is_byte; lia.
  - reflexivity.
  - reflexivity.
Defined.

(** ** HMC5983: the scaling, from the check of the whole range *)

(** What the check of the whole range gives for one count and one gain
    constant. *)
Lemma scaling_bounds c l :
  in_int16 c -> gain_constant l ->
  exists t : Z,
    trunc_float64 (scaled_float64 c l) = Some t /\
    Z.abs (t * l - c * 1000) <= l /\
    Z.abs t * l <= Z.abs c * 1000 /\
    (in_int16 t -> CountsToMicroTesla10 c l = t).
Proof.
  intros Hc Hl.
  pose proof (scaling_check_holds c l Hc Hl) as Hchk.
  unfold scaling_check in Hchk.
  destruct (trunc_float64 (scaled_float64 c l)) as [t |] eqn:Et;
    [| discriminate].
  apply andb_prop in Hchk. destruct Hchk as [H1 H2].
  apply Z.leb_le in H1. apply Z.leb_le in H2.
  exists t. repeat split; try assumption.
  intros Ht. unfold CountsToMicroTesla10, int16_of_float64.
  fold (scaled_float64 c l). rewrite Et. apply int16_small. exact Ht.
Qed.

(** Case analysis on a gain constant. *)
Ltac each_gain H :=
  apply gain_constant_listed in H; unfold gainConstants in H; cbn [In] in H;
  repeat (destruct H as [<- | H]; [| try contradiction]).

(** The counts [SenseRaw] returns are signed 16-bit values, whatever the bus
    delivered. *)
Lemma SenseRaw_range :
  forall (BusSt BusErr : Type)
         (Tx : Z -> list Z -> nat -> BusSt -> BusSt * (BusErr + list Z))
         (d : Dev) (w w' : World BusSt) (rx ry rz : Z),
    SenseRaw Tx d w = (w', inr (rx, ry, rz)) ->
    in_int16 rx /\ in_int16 ry /\ in_int16 rz.
Proof.
  intros BusSt BusErr Tx d w w' rx ry rz. unfold SenseRaw, bind.
  destruct (readRegBlock Tx d regDATA 6 w) as [w1 [e | data]];
    [discriminate |].
  unfold ret, or16. intros H. inversion H; subst.
  repeat split; apply int16_range.
Qed.

(** X8.  The scaling stays within [int16] on the whole range of raw counts
    exactly for the gain constants above 1000, that is 1370 and 1090 (X and
    Y at gain codes 0 and 1) and 1330 (Z at gain code 0): for these the
    result is always the integer part of the [float64] product; for every
    other gain constant some raw count overflows. *)
Theorem scaling_fits_int16_iff :
  forall l : Z,
    gain_constant l ->
    ((forall c : Z, in_int16 c ->
        exists t : Z,
          trunc_float64 (scaled_float64 c l) = Some t /\
          in_int16 t /\ CountsToMicroTesla10 c l = t)
     <-> 1000 < l).
Proof.
  intros l Hl. split.
  - intros Hall.
    destruct (Hall 32767 ltac:(unfold in_int16; lia)) as (t & Et & Ht & _).
    destruct (scaling_bounds 32767 l ltac:(unfold in_int16; lia) Hl)
      as (t' & Et' & Hb & _).
    rewrite Et in Et'. inversion Et'; subst t'.
    unfold in_int16 in Ht. each_gain Hl; lia.
  - intros Hgt c Hc.
    destruct (scaling_bounds c l Hc Hl) as (t & Et & _ & Hm & Hfit).
    assert (Ht : in_int16 t).
    { unfold in_int16 in *. each_gain Hl; lia. }
    exists t. split; [exact Et |]. split; [exact Ht | apply Hfit; exact Ht].
Qed.

Lemma scaling_fits_int16_iff_witness :
  (forall c : Z, in_int16 c ->
      exists t : Z,
        trunc_float64 (scaled_float64 c 1090) = Some t /\
        in_int16 t /\ CountsToMicroTesla10 c 1090 = t)
  <-> 1000 < 1090.
Proof.
  apply (scaling_fits_int16_iff 1090). left. unfold gainXY. cbn. tauto.
Defined.

(** X9.  The scaling is monotone: for one gain constant, a larger raw count
    never gives a smaller integer part, and never a smaller result when both
    results fit [int16]. *)
Theorem scaling_is_monotone :
  forall l c1 c2 : Z,
    gain_constant l -> in_int16 c1 -> in_int16 c2 -> c1 <= c2 ->
    exists t1 t2 : Z,
      trunc_float64 (scaled_float64 c1 l) = Some t1 /\
      trunc_float64 (scaled_float64 c2 l) = Some t2 /\
      t1 <= t2 /\
      (in_int16 t1 -> in_int16 t2 ->
       CountsToMicroTesla10 c1 l <= CountsToMicroTesla10 c2 l).
Proof.
  intros l c1 c2 Hl H1 H2 Hle.
  destruct (scaling_bounds c1 l H1 Hl) as (t1 & E1 & Ha1 & Hm1 & Hf1).
  destruct (scaling_bounds c2 l H2 Hl) as (t2 & E2 & Ha2 & Hm2 & Hf2).
  exists t1, t2. split; [exact E1 |]. split; [exact E2 |].
  assert (Hmono : t1 <= t2).
  { destruct (Z.eq_dec c1 c2) as [-> | Hne].
    - rewrite E1 in E2. inversion E2. lia.
    - clear E1 E2 Hf1 Hf2. unfold in_int16 in *. each_gain Hl; lia. }
  split; [exact Hmono |].
  intros Hi1 Hi2. rewrite (Hf1 Hi1), (Hf2 Hi2). exact Hmono.
Qed.

Lemma scaling_is_monotone_witness :
  exists t1 t2 : Z,
    trunc_float64 (scaled_float64 401 400) = Some t1 /\
    trunc_float64 (scaled_float64 402 400) = Some t2 /\
    t1 <= t2 /\
    (in_int16 t1 -> in_int16 t2 ->
     CountsToMicroTesla10 401 400 <= CountsToMicroTesla10 402 400).
Proof.
  apply (scaling_is_monotone 400 401 402).
  - right. unfold gainZ. cbn. tauto.
  - unfold in_int16. lia.
  - unfold in_int16. lia.
  - lia.
Defined.

(** X10.  The scaling keeps the sign of the raw count, and gives 0 exactly
    for the counts whose exact value is below 1 in magnitude: a raw count of
    1 or -1 is lost with the gain constants above 1000 and with no
    other. *)
Theorem scaling_sign_and_zero :
  forall l c : Z,
    gain_constant l -> in_int16 c ->
    exists t : Z,
      trunc_float64 (scaled_float64 c l) = Some t /\
      (0 <= c -> 0 <= t) /\ (c <= 0 -> t <= 0) /\
      (t = 0 <-> Z.abs c * 1000 < l) /\
      (CountsToMicroTesla10 1 l = 0 <-> 1000 < l).
Proof.
  intros l c Hl Hc.
  destruct (scaling_bounds c l Hc Hl) as (t & Et & Ha & Hm & _).
  destruct (scaling_bounds 1 l ltac:(unfold in_int16; lia) Hl)
    as (u & Eu & Hua & Hum & Huf).
  assert (Hu : in_int16 u) by (unfold in_int16; clear Ha Hm; each_gain Hl; lia).
  exists t. split; [exact Et |].
  rewrite (Huf Hu). clear Et Eu Huf Hu. unfold in_int16 in Hc.
  each_gain Hl; repeat split; intros; lia.
Qed.

Lemma scaling_sign_and_zero_witness :
  exists t : Z,
    trunc_float64 (scaled_float64 (-1) 1370) = Some t /\
    (0 <= -1 -> 0 <= t) /\ (-1 <= 0 -> t <= 0) /\
    (t = 0 <-> Z.abs (-1) * 1000 < 1370) /\
    (CountsToMicroTesla10 1 1370 = 0 <-> 1000 < 1370).
Proof.
  apply (scaling_sign_and_zero 1370 (-1)).
  - left. unfold gainXY. cbn. tauto.
  - unfold in_int16. lia.
Defined.

(** X11.  [New], then [Sense]: on a device made with gain code 0 or 1 (1
    is also what an invalid gain code gives) the X and Y results never
    overflow, whatever the six bytes read, and are within one of the exact
    value [raw * 1000 / lsbPerGaXY]; for the Z result this holds with gain
    code 0. *)
Theorem Sense_after_New_is_in_range :
  forall (BusSt BusErr : Type)
         (Tx : Z -> list Z -> nat -> BusSt -> BusSt * (BusErr + list Z))
         (opts : Opts) (w0 w1 w w' : World BusSt) (d : Dev) (rx ry rz : Z),
    New Tx opts w0 = (w1, inr d) ->
    SenseRaw Tx d w = (w', inr (rx, ry, rz)) ->
    exists ux uy uz : Z,
      Sense Tx d w = (w', inr (ux, uy, uz)) /\
      (effectiveGainCode opts <= 1 ->
       Z.abs (ux * lsbPerGaXY d - rx * 1000) <= lsbPerGaXY d /\
       Z.abs (uy * lsbPerGaXY d - ry * 1000) <= lsbPerGaXY d) /\
      (effectiveGainCode opts = 0 ->
       Z.abs (uz * lsbPerGaZ d - rz * 1000) <= lsbPerGaZ d).
Proof.
  intros BusSt BusErr Tx opts w0 w1 w w' d rx ry rz HNew Hraw.
  destruct (New_device Tx opts w0 w1 d HNew) as [Hxy Hz].
  destruct (New_gain_constants Tx opts w0 w1 d HNew) as [Gxy Gz].
  destruct (SenseRaw_range _ _ Tx d w w' rx ry rz Hraw) as (Rx & Ry & Rz).
  rewrite (Sense_scales _ _ Tx d w w' rx ry rz Hraw).
  eexists. eexists. eexists. split; [reflexivity |].
  pose proof (effectiveGainCode_range opts) as Hr.
  assert (Hin : forall c l, in_int16 c -> gain_constant l -> 1000 < l ->
                Z.abs (CountsToMicroTesla10 c l * l - c * 1000) <= l).
  { intros c l Hc Hl Hgt.
    destruct (scaling_bounds c l Hc Hl) as (t & _ & Ha & Hm & Hfit).
    rewrite Hfit; [exact Ha |].
    unfold in_int16 in *. clear Ha Hfit. each_gain Hl; lia. }
  split.
  - intros Hg.
    assert (Hl : 1000 < lsbPerGaXY d).
    { rewrite Hxy.
      assert (Hc : effectiveGainCode opts = 0 \/ effectiveGainCode opts = 1)
        by lia.
      destruct Hc as [-> | ->]; reflexivity. }
    split; apply Hin; try assumption; left; exact Gxy.
  - intros Hg.
    assert (Hl : 1000 < lsbPerGaZ d) by (rewrite Hz, Hg; reflexivity).
    apply Hin; try assumption. right. exact Gz.
Qed.

Lemma Sense_after_New_is_in_range_witness :
  exists ux uy uz : Z,
    Sense (mockTx [0x7F; 0xFF; 0x80; 0x00; 0x12; 0x34])
      (mkDev 0x1E 1370 1330) (mkWorld [] []) =
      (mkWorld [(0x1E, [regDATA])] [], inr (ux, uy, uz)) /\
    (effectiveGainCode (mkOpts 15 1 0 "continuous" 0) <= 1 ->
     Z.abs (ux * 1370 - 32767 * 1000) <= 1370 /\
     Z.abs (uy * 1370 - 4660 * 1000) <= 1370) /\
    (effectiveGainCode (mkOpts 15 1 0 "continuous" 0) = 0 ->
     Z.abs (uz * 1330 - (-32768) * 1000) <= 1330).
Proof.
  apply (Sense_after_New_is_in_range _ _
           (mockTx [0x7F; 0xFF; 0x80; 0x00; 0x12; 0x34])
           (mkOpts 15 1 0 "continuous" 0) (mkWorld [] [])
           (mkWorld [(0x1E, [regCRA; 0x0C]); (0x1E, [regCRB; 0x00]);
                     (0x1E, [regMODE; 0x00])] [10 * Millisecond])
           (mkWorld [] []) (mkWorld [(0x1E, [regDATA])] [])
           (mkDev 0x1E 1370 1330) 32767 4660 (-32768)).
  - reflexivity.
  - reflexivity.
Defined.

(** ** Configuration: the validators, case by case *)

(** X12.  [validateRegisterDebugMagConfig] returns an error exactly when the
    write override is above 500, or is in [1, 50) while the unsafe mode is
    off, or the read override is above 100.  An override of 0 or below is
    never an error, and the unsafe mode has no bearing on the read
    override. *)
Theorem debug_validation_error_iff :
  forall cfg : Config,
    snd (validateRegisterDebugMagConfig cfg) <> None <->
    500 < RegisterDebugMagWriteDelay cfg \/
    (1 <= RegisterDebugMagWriteDelay cfg < 50 /\
     RegisterDebugMagUnsafeMode cfg = false) \/
    100 < RegisterDebugMagReadDelay cfg.
Proof.
  intros cfg. unfold validateRegisterDebugMagConfig.
  destruct (Z.gtb_spec (RegisterDebugMagWriteDelay cfg) 0).
  - destruct (Z.ltb_spec (RegisterDebugMagWriteDelay cfg) 1); [lia |].
    cbn [orb].
    destruct (Z.gtb_spec (RegisterDebugMagWriteDelay cfg) 500).
    { cbn. split; [intros _; lia | discriminate]. }
    destruct (Z.ltb_spec (RegisterDebugMagWriteDelay cfg) 50);
      destruct (RegisterDebugMagUnsafeMode cfg) eqn:Eu; cbn [andb negb];
      try (cbn; split; [intros _; right; left; split; [lia | reflexivity]
                       | discriminate]);
      (destruct (Z.gtb_spec (RegisterDebugMagReadDelay cfg) 0);
       [destruct (Z.ltb_spec (RegisterDebugMagReadDelay cfg) 1); [lia |];
        cbn [orb];
        destruct (Z.gtb_spec (RegisterDebugMagReadDelay cfg) 100) |];
       cbn; split; try discriminate; try congruence;
       try (intros _; lia);
       intros [? | [[? ?] | ?]]; try lia; congruence).
  - destruct (Z.gtb_spec (RegisterDebugMagReadDelay cfg) 0);
      [destruct (Z.ltb_spec (RegisterDebugMagReadDelay cfg) 1); [lia |];
       cbn [orb];
       destruct (Z.gtb_spec (RegisterDebugMagReadDelay cfg) 100) |];
      cbn; split; try discriminate; try congruence;
      try (intros _; lia);
      intros [? | [[? ?] | ?]]; lia.
Qed.

(** X13.  Turning the unsafe mode on never makes
    [validateRegisterDebugMagConfig] reject what it accepted with the mode
    off, changes its verdict only for a write override in [1, 50), and has
    no effect on [validateMagConfig]. *)
Theorem unsafe_mode_only_relaxes :
  forall cfg : Config,
    (snd (validateRegisterDebugMagConfig (withUnsafeMode false cfg)) = None ->
     snd (validateRegisterDebugMagConfig (withUnsafeMode true cfg)) = None) /\
    (~ 1 <= RegisterDebugMagWriteDelay cfg < 50 ->
     snd (validateRegisterDebugMagConfig (withUnsafeMode true cfg)) =
     snd (validateRegisterDebugMagConfig (withUnsafeMode false cfg))) /\
    validateMagConfig (withUnsafeMode true cfg) =
    validateMagConfig (withUnsafeMode false cfg).
Proof.
  intros cfg. split; [| split].
  - unfold validateRegisterDebugMagConfig.
    cbn [withUnsafeMode RegisterDebugMagWriteDelay RegisterDebugMagReadDelay
         RegisterDebugMagUnsafeMode].
    destruct (RegisterDebugMagWriteDelay cfg >? 0);
      [destruct (_ || _); [discriminate |];
       destruct (RegisterDebugMagWriteDelay cfg <? 50); cbn [andb negb];
       [discriminate |] |];
      (destruct (RegisterDebugMagReadDelay cfg >? 0);
       [destruct (_ || _) |]; cbn [snd]; trivial; discriminate).
  - intros Hw. unfold validateRegisterDebugMagConfig.
    cbn [withUnsafeMode RegisterDebugMagWriteDelay RegisterDebugMagReadDelay
         RegisterDebugMagUnsafeMode].
    destruct (Z.gtb_spec (RegisterDebugMagWriteDelay cfg) 0).
    + destruct (Z.ltb_spec (RegisterDebugMagWriteDelay cfg) 1); [lia |].
      destruct (Z.gtb_spec (RegisterDebugMagWriteDelay cfg) 500);
        [reflexivity |].
      destruct (Z.ltb_spec (RegisterDebugMagWriteDelay cfg) 50); [lia |].
      cbn [orb andb negb].
      destruct (_ >? 0); [destruct (_ || _) |]; reflexivity.
    + destruct (_ >? 0); [destruct (_ || _) |]; reflexivity.
  - reflexivity.
Qed.

Lemma unsafe_mode_only_relaxes_witness :
  snd (validateRegisterDebugMagConfig
         (withUnsafeMode true (mkConfig 50 2 1 0x06 1 60 (-1) false))) = None.
Proof.
  destruct (unsafe_mode_only_relaxes (mkConfig 50 2 1 0x06 1 60 (-1) false))
    as [H _].
  apply H. reflexivity.
Defined.

(** X14.  What the validators log does not depend on their verdict:
    [validateRegisterDebugMagConfig] logs its three warning lines exactly
    when the unsafe mode is on, also when it then rejects; and
    [validateMagConfig] logs one warning exactly when the write delay is in
    [1, 50), also when it then rejects another field, and nothing when it
    rejects the write delay itself. *)
Theorem validators_log_before_rejecting :
  forall cfg : Config,
    fst (validateRegisterDebugMagConfig cfg) =
      (if RegisterDebugMagUnsafeMode cfg
       then [WarnUnsafeModeSet; WarnUnsafeOperationsEnabled;
             WarnNotForProduction]
       else []) /\
    (1 <= MagWriteDelayMS cfg < 50 ->
     fst (validateMagConfig cfg) =
       [WarnWriteDelayBelowRecommended (MagWriteDelayMS cfg)]) /\
    (~ 1 <= MagWriteDelayMS cfg < 50 -> fst (validateMagConfig cfg) = []).
Proof.
  intros cfg. split; [| split].
  - unfold validateRegisterDebugMagConfig.
    destruct (_ >? 0);
      [destruct (_ || _); [reflexivity |];
       destruct (_ && _); [reflexivity |] |];
      (destruct (_ >? 0); [destruct (_ || _) |]; reflexivity).
  - apply validateMagConfig_warns.
  - intros H. unfold validateMagConfig.
    destruct (Z.ltb_spec (MagWriteDelayMS cfg) 1); [reflexivity |].
    destruct (Z.gtb_spec (MagWriteDelayMS cfg) 200); [reflexivity |].
    cbn [orb].
    destruct (Z.ltb_spec (MagWriteDelayMS cfg) 50); [lia |].
    destruct (_ || _); [reflexivity |].
    destruct (_ >? _); [reflexivity |].
    destruct (lookup _ _); [| reflexivity].
    destruct (_ >? _); reflexivity.
Qed.

Lemma validators_log_before_rejecting_witness :
  fst (validateMagConfig (mkConfig 10 0 1 0x06 1 (-1) (-1) false)) =
    [WarnWriteDelayBelowRecommended 10].
Proof.
  destruct (validators_log_before_rejecting
              (mkConfig 10 0 1 0x06 1 (-1) (-1) false)) as [_ [H _]].
  apply H. cbn. lia.
Defined.

(** X15.  [validateMagConfig] reports the first invalid field, in the order
    write delay, read delay, scale, mode, sample rate divider, with the
    offending value. *)
Theorem validateMagConfig_reports_first_invalid_field :
  forall cfg : Config,
    (MagWriteDelayMS cfg < 1 \/ 200 < MagWriteDelayMS cfg ->
     snd (validateMagConfig cfg) =
       Some (ErrWriteDelayRange (MagWriteDelayMS cfg))) /\
    (1 <= MagWriteDelayMS cfg <= 200 ->
     (MagReadDelayMS cfg < 1 \/ 50 < MagReadDelayMS cfg ->
      snd (validateMagConfig cfg) =
        Some (ErrReadDelayRange (MagReadDelayMS cfg))) /\
     (1 <= MagReadDelayMS cfg <= 50 ->
      (1 < MagScale cfg ->
       snd (validateMagConfig cfg) = Some (ErrScale (MagScale cfg))) /\
      (MagScale cfg <= 1 ->
       (~ valid_mode (MagMode cfg) ->
        snd (validateMagConfig cfg) = Some (ErrMode (MagMode cfg))) /\
       (valid_mode (MagMode cfg) ->
        (15 < MagSampleRateDivider cfg ->
         snd (validateMagConfig cfg) =
           Some (ErrSampleRateDivider (MagSampleRateDivider cfg))) /\
        (MagSampleRateDivider cfg <= 15 ->
         snd (validateMagConfig cfg) = None))))).
Proof.
  intros cfg.
  pose proof (validModes_lookup (MagMode cfg)) as Hmode.
  unfold validateMagConfig.
  destruct (Z.ltb_spec (MagWriteDelayMS cfg) 1); cbn [orb];
    [split; [reflexivity | lia] |].
  destruct (Z.gtb_spec (MagWriteDelayMS cfg) 200);
    [split; [reflexivity | lia] |].
  split; [lia |]. intros _.
  destruct (Z.ltb_spec (MagReadDelayMS cfg) 1); cbn [orb];
    [split; [reflexivity | lia] |].
  destruct (Z.gtb_spec (MagReadDelayMS cfg) 50);
    [split; [reflexivity | lia] |].
  split; [lia |]. intros _.
  destruct (Z.gtb_spec (MagScale cfg) 1); [split; [reflexivity | lia] |].
  split; [lia |]. intros _.
  destruct (lookup validModes (MagMode cfg)) as [name |].
  - split; [intros Hn; exfalso; apply Hn, Hmode; discriminate |]. intros _.
    destruct (Z.gtb_spec (MagSampleRateDivider cfg) 15);
      split; first [reflexivity | lia].
  - split; [reflexivity |]. intros Hv. apply Hmode in Hv. congruence.
Qed.

Lemma validateMagConfig_reports_first_invalid_field_witness :
  snd (validateMagConfig (mkConfig 0 0 7 0x03 99 (-1) (-1) false)) =
    Some (ErrWriteDelayRange 0).
Proof.
  destruct (validateMagConfig_reports_first_invalid_field
              (mkConfig 0 0 7 0x03 99 (-1) (-1) false)) as [H _].
  apply H. cbn. lia.
Defined.

(** X16.  [validateMagParams] accepts exactly the delays of at least 1 ms
    with a scale of at most 1 and a valid mode; unlike [validateMagConfig]
    it puts no upper bound on a delay.  It reports the first of write
    delay, read delay, scale and mode that is invalid. *)
Theorem validateMagParams_verdict :
  forall wd rd s m : Z,
    (validateMagParams wd rd s m = None <->
     Millisecond <= wd /\ Millisecond <= rd /\ s <= 1 /\ valid_mode m) /\
    (wd < Millisecond ->
     validateMagParams wd rd s m = Some (ErrParamWriteDelay wd)) /\
    (Millisecond <= wd -> rd < Millisecond ->
     validateMagParams wd rd s m = Some (ErrParamReadDelay rd)) /\
    (Millisecond <= wd -> Millisecond <= rd -> 1 < s ->
     validateMagParams wd rd s m = Some (ErrParamScale s)) /\
    (Millisecond <= wd -> Millisecond <= rd -> s <= 1 -> ~ valid_mode m ->
     validateMagParams wd rd s m = Some (ErrParamMode m)).
Proof.
  intros wd rd s m.
  pose proof (validModesParam_lookup m) as Hm.
  unfold validateMagParams.
  destruct (Z.ltb_spec wd Millisecond);
    [repeat split; try discriminate; try reflexivity; intros; lia |].
  destruct (Z.ltb_spec rd Millisecond);
    [repeat split; try discriminate; try reflexivity; intros; lia |].
  destruct (Z.gtb_spec s 1);
    [repeat split; try discriminate; try reflexivity; intros; lia |].
  destruct (lookup validModesParam m) as [[|] |].
  - assert (Hv : valid_mode m) by (apply Hm; reflexivity).
    repeat split; try assumption; try reflexivity; intros; try lia;
      contradiction.
  - assert (Hv : ~ valid_mode m) by (intros Hv; apply Hm in Hv; discriminate).
    repeat split; try discriminate; try reflexivity; intros; try lia.
    tauto.
  - assert (Hv : ~ valid_mode m) by (intros Hv; apply Hm in Hv; discriminate).
    repeat split; try discriminate; try reflexivity; intros; try lia.
    tauto.
Qed.

(** ** Configuration and driver together *)

Lemma durationOfMs_small ms :
  0 <= ms <= 500 -> durationOfMs ms = ms * Millisecond.
Proof.
  intros H. unfold durationOfMs, wrap, Millisecond.
  change (2 ^ (64 - 1)) with 9223372036854775808.
  change (2 ^ 64) with 18446744073709551616.
  rewrite Z.mod_small; lia.
Qed.

(** X17.  Configuration and driver agree: the two tables of valid modes
    hold the same modes, and every configuration [validateMagConfig]
    accepts gives, converted as [IMUManager.Init] converts it, parameters
    that [validateMagParams] accepts; the delays are a whole number of
    milliseconds, at most 200 ms and 50 ms, and no [int64] product wraps. *)
Theorem accepted_config_gives_accepted_params :
  forall cfg : Config,
    (forall m, lookup validModes m <> None <->
               lookup validModesParam m = Some true) /\
    (wf_config cfg ->
     snd (validateMagConfig cfg) = None ->
     durationOfMs (MagWriteDelayMS cfg) = MagWriteDelayMS cfg * Millisecond /\
     durationOfMs (MagReadDelayMS cfg) = MagReadDelayMS cfg * Millisecond /\
     Millisecond <= durationOfMs (MagWriteDelayMS cfg) <= 200 * Millisecond /\
     Millisecond <= durationOfMs (MagReadDelayMS cfg) <= 50 * Millisecond /\
     validateMagParams (durationOfMs (MagWriteDelayMS cfg))
       (durationOfMs (MagReadDelayMS cfg)) (MagScale cfg) (MagMode cfg)
     = None).
Proof.
  intros cfg. split.
  - intros m. rewrite validModes_lookup, validModesParam_lookup. tauto.
  - intros Hwf Hok.
    assert (Hvalid : ~ standardSetInvalid cfg).
    { intros Hinv. apply (validateMagConfig_error_iff cfg Hwf) in Hinv.
      congruence. }
    unfold standardSetInvalid in Hvalid.
    assert (Hwd : 1 <= MagWriteDelayMS cfg <= 200) by lia.
    assert (Hrd : 1 <= MagReadDelayMS cfg <= 50) by lia.
    assert (Hs : valid_scale (MagScale cfg)).
    { destruct Hwf as ([? ?] & _). unfold valid_scale in *.
      destruct (Z.eq_dec (MagScale cfg) 0); [tauto |].
      destruct (Z.eq_dec (MagScale cfg) 1); [tauto |].
      exfalso. apply Hvalid. right. right. left. lia. }
    assert (Hm : valid_mode (MagMode cfg)).
    { pose proof (validModes_lookup (MagMode cfg)) as Hl.
      destruct (lookup validModes (MagMode cfg)) eqn:E.
      - apply Hl. discriminate.
      - exfalso. apply Hvalid. right. right. right. left.
        intros Hv. apply Hl in Hv. congruence. }
    rewrite !durationOfMs_small by lia.
    repeat split; try (unfold Millisecond; lia).
    apply validateMagParams_accepts_iff; [apply Hwf |].
    repeat split; try assumption; unfold Millisecond; lia.
Qed.

Lemma accepted_config_gives_accepted_params_witness :
  validateMagParams (durationOfMs (MagWriteDelayMS standardConfig))
    (durationOfMs (MagReadDelayMS standardConfig)) (MagScale standardConfig)
    (MagMode standardConfig) = None.
Proof.
  destruct (accepted_config_gives_accepted_params standardConfig) as [_ H].
  apply H.
  - unfold wf_config, is_byte. cbn. lia.
  - reflexivity.
Defined.

(** X18.  The register debug tool, after both validators have accepted the
    configuration: the write delay it uses is the override when the
    override is positive (and then the warning is logged) and the standard
    delay otherwise; it is between 1 ms and 500 ms; and it is below 50 ms
    only if the unsafe mode is on or no override is set. *)
Theorem registerDebugWriteDelay_after_validation :
  forall cfg : Config,
    snd (validateMagConfig cfg) = None ->
    snd (validateRegisterDebugMagConfig cfg) = None ->
    (override_set (RegisterDebugMagWriteDelay cfg) ->
     registerDebugWriteDelay cfg =
       ([WarnExperimentalWriteDelay (RegisterDebugMagWriteDelay cfg)],
        RegisterDebugMagWriteDelay cfg * Millisecond)) /\
    (~ override_set (RegisterDebugMagWriteDelay cfg) ->
     registerDebugWriteDelay cfg = ([], MagWriteDelayMS cfg * Millisecond)) /\
    Millisecond <= snd (registerDebugWriteDelay cfg) <= 500 * Millisecond /\
    (snd (registerDebugWriteDelay cfg) < 50 * Millisecond ->
     RegisterDebugMagUnsafeMode cfg = true \/
     ~ override_set (RegisterDebugMagWriteDelay cfg)).
Proof.
  intros cfg Hstd Hdbg.
  assert (Hwd : 1 <= MagWriteDelayMS cfg <= 200).
  { revert Hstd. unfold validateMagConfig.
    destruct (Z.ltb_spec (MagWriteDelayMS cfg) 1); [discriminate |].
    destruct (Z.gtb_spec (MagWriteDelayMS cfg) 200); [discriminate |]. lia. }
  assert (Hov : 0 < RegisterDebugMagWriteDelay cfg ->
                RegisterDebugMagWriteDelay cfg <= 500 /\
                (RegisterDebugMagWriteDelay cfg < 50 ->
                 RegisterDebugMagUnsafeMode cfg = true)).
  { revert Hdbg. unfold validateRegisterDebugMagConfig.
    destruct (Z.gtb_spec (RegisterDebugMagWriteDelay cfg) 0); [| lia].
    destruct (Z.ltb_spec (RegisterDebugMagWriteDelay cfg) 1); [lia |].
    destruct (Z.gtb_spec (RegisterDebugMagWriteDelay cfg) 500);
      [discriminate |].
    destruct (Z.ltb_spec (RegisterDebugMagWriteDelay cfg) 50);
      destruct (RegisterDebugMagUnsafeMode cfg); cbn [orb andb negb];
      try discriminate; intros _ _; split; try lia; intros; try lia;
      reflexivity. }
  unfold registerDebugWriteDelay, override_set.
  destruct (Z.gtb_spec (RegisterDebugMagWriteDelay cfg) 0) as [Hset | Hunset].
  - destruct (Hov Hset) as [Hmax _].
    rewrite durationOfMs_small by lia. cbn [snd].
    split; [reflexivity |]. split; [lia |].
    split; [unfold Millisecond; lia |].
    intros Hlt. left. apply Hov; [lia |]. unfold Millisecond in Hlt. lia.
  - rewrite durationOfMs_small by lia. cbn [snd].
    split; [lia |]. split; [reflexivity |].
    split; [unfold Millisecond; lia |].
    intros _. right. lia.
Qed.

Lemma registerDebugWriteDelay_after_validation_witness :
  registerDebugWriteDelay (mkConfig 50 2 1 0x06 1 10 (-1) true) =
    ([WarnExperimentalWriteDelay 10], 10 * Millisecond).
Proof.
  destruct (registerDebugWriteDelay_after_validation
              (mkConfig 50 2 1 0x06 1 10 (-1) true)) as [H _].
  - reflexivity.
  - reflexivity.
  - apply H. unfold override_set. cbn. lia.
Defined.

(** ** [IMUManager.Init] *)





(** ** The time of the fixed sequence *)

(** X21.  The settle waits of the fixed sequence (MAG_README.md, section
    9.3), as the sequencer models it, add up to six write delays and one
    read delay.  For a configuration [validateMagConfig] accepts, with no
    override set, that is between 7 ms and 1250 ms: within the 500 ms the
    document asks of the initialization (section 13.3) exactly when
    [6 * MAG_WRITE_DELAY_MS + MAG_READ_DELAY_MS <= 500], which validation
    does not ensure. *)
Theorem settle_time_of_full_run :
  forall (TS TransportError : Type)
         (write : Reg -> Z -> TS -> TS * option TransportError)
         (readBlock : Reg -> nat -> TS -> TS * (TransportError + list Z))
         (cfg : Config) (p : EffectiveParameters) (ts : TS),
    snd (resolve cfg) = inr p ->
    ~ override_set (RegisterDebugMagWriteDelay cfg) ->
    ~ override_set (RegisterDebugMagReadDelay cfg) ->
    state (fullRun write readBlock p ts) = Ready ->
    totalWait (trace (fullRun write readBlock p ts)) =
      (6 * MagWriteDelayMS cfg + MagReadDelayMS cfg) * Millisecond /\
    7 * Millisecond <= totalWait (trace (fullRun write readBlock p ts))
      <= 1250 * Millisecond /\
    (totalWait (trace (fullRun write readBlock p ts)) <= 500 * Millisecond <->
     6 * MagWriteDelayMS cfg + MagReadDelayMS cfg <= 500).
Proof.
  intros TS TransportError write readBlock cfg p ts Hres Hw Hr Hready.
  destruct (fullRun_ready_trace write readBlock p ts Hready) as [_ Ht].
  rewrite Ht.
  assert (Hstd : snd (validateMagConfig cfg) = None).
  { destruct (snd (validateMagConfig cfg)) as [e |] eqn:E; [| reflexivity].
    exfalso.
    assert (Herr : is_config_error (resolve cfg))
      by (apply resolve_error_iff; left; congruence).
    unfold is_config_error in Herr. rewrite Hres in Herr. exact Herr. }
  assert (Hrange : 1 <= MagWriteDelayMS cfg <= 200 /\
                   1 <= MagReadDelayMS cfg <= 50).
  { revert Hstd. unfold validateMagConfig.
    destruct (Z.ltb_spec (MagWriteDelayMS cfg) 1); [discriminate |].
    destruct (Z.gtb_spec (MagWriteDelayMS cfg) 200); [discriminate |].
    cbn [orb].
    destruct (Z.ltb_spec (MagReadDelayMS cfg) 1); [discriminate |].
    destruct (Z.gtb_spec (MagReadDelayMS cfg) 50); [discriminate |].
    intros _. lia. }
  pose proof (validateRegisterDebugMagConfig_no_override cfg Hw Hr) as Hdbg.
  rewrite (resolve_ok cfg Hstd Hdbg) in Hres.
  unfold override_set, override_setb in *.
  destruct (Z.gtb_spec (RegisterDebugMagWriteDelay cfg) 0); [lia |].
  destruct (Z.gtb_spec (RegisterDebugMagReadDelay cfg) 0); [lia |].
  inversion Hres; subst p. clear Hres.
  unfold totalWait, expectedTrace, Millisecond.
  cbn [waitsOf flat_map app map snd fst fold_right writeDelay readDelay].
  lia.
Qed.

Lemma settle_time_of_full_run_witness :
  totalWait (trace (fullRun (mockWrite None) (mockReadBlock None [128; 128; 128])
                      standardParams 0%nat)) =
  (6 * 50 + 2) * Millisecond.
Proof.
  apply (settle_time_of_full_run nat unit (mockWrite None)
           (mockReadBlock None [128; 128; 128]) standardConfig standardParams
           0%nat).
  - reflexivity.
  - unfold override_set. cbn. lia.
  - unfold override_set. cbn. lia.
  - reflexivity.
Defined.
